(** * gmailsync: the archive storage engine and the synchronisation pipeline

    A shallow embedding of package [db] (src/db/db.go, the version with the
    40-byte file header and feature bits) and of the scan, fetch and export
    code of package [main], followed by the properties stated about them.

    Conventions.
    - [[]byte] is [list byte]; a Go [string] is a [string]; [int64] and the
      unsigned fixed-width integers are [Z], the wrap-around of an unsigned
      conversion written out as [mod].
    - [map[int64]T] is [gmap Z T]; reading a missing key gives the zero value.
    - A Go function returning [(T, error)] returns a [result T]; a [panic] is
      the outcome [Panic].
    - The open file is a value: its bytes, its cursor, and whether the
      operating system reports a failure on [Sync].
    - The Go standard library (crypto/sha1, compress/gzip, encoding/asn1,
      bufio, strconv) is not part of the repository: its functions are the
      fields of the class [Env], and each theorem lists the facts about them
      that it needs, for the payloads and records it speaks of. *)

From Stdlib Require Import ZArith List Lia String Permutation.
From coqutil Require Import Byte Word.LittleEndianList.
From stdpp Require Import gmap list.

Local Open Scope Z_scope.

#[global] Instance byte_eq_dec : EqDecision byte := Byte.byte_eq_dec.

(** ** Outcomes of Go calls *)

Inductive error : Type :=
  | io_EOF                (* io.EOF *)
  | io_ErrUnexpectedEOF   (* io.ErrUnexpectedEOF *)
  | ErrIncorrectFormat    (* errors.New("Incorrect file format") *)
  | ErrSync               (* whatever File.Sync reports *)
  | ErrNetwork.           (* whatever the connection to the server reports *)

Inductive panic_value : Type :=
  | PanicSliceBounds      (* data[:20] on fewer than 20 bytes *)
  | PanicGzip             (* panic(err) in decompress *)
  | PanicHashFailure      (* panic("hash failure") *)
  | PanicAsn1             (* panic(err) after asn1.Unmarshal *)
  | PanicTypeAssertion    (* intf.(MessageRecord) on another type *)
  | PanicNilDeref.        (* rec.MessageID on a nil record pointer *)

Inductive result (A : Type) : Type :=
  | Ok (a : A)
  | Err (e : error)
  | Panic (p : panic_value)
  | OutOfFuel.            (* the loop bound of the model was reached *)

Arguments Ok {A} a.
Arguments Err {A} e.
Arguments Panic {A} p.
Arguments OutOfFuel {A}.

#[global] Instance error_eq_dec : EqDecision error.
Proof. solve_decision. Defined.

(** Calls in sequence: the first one that does not return normally decides
    the outcome. [bind] is for calls that only return a result, [bindF] for
    calls that also move the cursor of the file they read. *)
Definition bind {A B : Type} (r : result A) (k : A -> result B) : result B :=
  match r with
  | Ok a => k a
  | Err e => Err e
  | Panic p => Panic p
  | OutOfFuel => OutOfFuel
  end.

Notation "'let*' x ':=' r 'in' k" := (bind r (fun x => k))
  (at level 10, x name, r at level 100, k at level 200).

(** ** encoding/binary, little endian *)

Definition uint16 (z : Z) : Z := z mod 2 ^ 16.
Definition uint32 (z : Z) : Z := z mod 2 ^ 32.

(** ** Types of package db *)

Definition AnyType : Z := 0.
Definition MessageRecordType : Z := 1.
Definition LabelsRecordType : Z := 2.
Definition DeleteRecordType : Z := 3.
Definition HaveRecordType : Z := 4.

Definition FeatureCompressed : Z := 1.
Definition FeatureHashed : Z := 2.

Module Header.
Record t : Type := mk { Type_ : Z; FeatureBits : Z; Length : Z }.
End Header.

Module MessageRecord.
Record t : Type := mk { MessageID : Z; Data : list byte }.
End MessageRecord.

Module LabelsEntry.
Record t : Type := mk { MessageID : Z; Labels : list (list byte) }.
End LabelsEntry.

Definition LabelsRecord : Type := list LabelsEntry.t.

(** What [nextRecord] hands back in its [interface{}]. *)
Inductive record : Type :=
  | RMessage (m : MessageRecord.t)
  | RLabels (l : LabelsRecord).

Definition fileMagic : Z := 0x20121025.

(** [binary.Size(FileHeader{})]: 4+1+1+2+4+4+8+8+8. *)
Definition fileHeaderLength : nat := 40.
Definition recordHeaderLength : nat := 8.

Module FileHeader.
Record t : Type := mk {
  Magic : Z; Version : Z; Reserved0 : Z; Reserved1 : Z;
  CreateTime : Z; UpdateTime : Z; HavePtr : Z; Reserved2 : Z; Reserved3 : Z }.
Definition zero : t := mk 0 0 0 0 0 0 0 0 0.
End FileHeader.

(** [binary.Write(w, binary.LittleEndian, fhdr)] *)
Definition put_FileHeader (h : FileHeader.t) : list byte :=
  le_split 4 (FileHeader.Magic h) ++ le_split 1 (FileHeader.Version h) ++
  le_split 1 (FileHeader.Reserved0 h) ++ le_split 2 (FileHeader.Reserved1 h) ++
  le_split 4 (FileHeader.CreateTime h) ++ le_split 4 (FileHeader.UpdateTime h) ++
  le_split 8 (FileHeader.HavePtr h) ++ le_split 8 (FileHeader.Reserved2 h) ++
  le_split 8 (FileHeader.Reserved3 h).

(** The decoding half of [binary.Read] on the 40 bytes of a file header. *)
Definition get_FileHeader (bs : list byte) : FileHeader.t :=
  FileHeader.mk
    (le_combine (take 4 bs))
    (le_combine (take 1 (drop 4 bs)))
    (le_combine (take 1 (drop 5 bs)))
    (le_combine (take 2 (drop 6 bs)))
    (le_combine (take 4 (drop 8 bs)))
    (le_combine (take 4 (drop 12 bs)))
    (le_combine (take 8 (drop 16 bs)))
    (le_combine (take 8 (drop 24 bs)))
    (le_combine (take 8 (drop 32 bs))).

(** [binary.Write(w, binary.LittleEndian, hdr)] for a record header. *)
Definition put_Header (h : Header.t) : list byte :=
  le_split 2 (Header.Type_ h) ++ le_split 2 (Header.FeatureBits h) ++
  le_split 4 (Header.Length h).

Definition get_Header (bs : list byte) : Header.t :=
  Header.mk (le_combine (take 2 bs))
            (le_combine (take 2 (drop 2 bs)))
            (le_combine (take 4 (drop 4 bs))).

(** ** The open file *)

Record File : Type := mkFile {
  contents : list byte;   (* the bytes of the file *)
  offset : nat;           (* the one cursor, shared by reads and writes *)
  sync_fails : bool       (* does [Sync] report an error? *)
}.

Definition set_offset (o : nat) (f : File) : File :=
  mkFile (contents f) o (sync_fails f).

(** The bytes from the cursor to the end of the file. *)
Definition pending (f : File) : list byte := drop (offset f) (contents f).

(** [io.ReadFull] on the file, as [binary.Read] calls it for a struct of [n]
    bytes ([n] is 8 or 40): nothing left is [io.EOF], fewer than [n] bytes is
    [io.ErrUnexpectedEOF] with the cursor at the end. *)
Definition ReadFull (n : nat) (f : File) : File * result (list byte) :=
  let avail := pending f in
  if decide (length avail = 0%nat) then (f, Err io_EOF)
  else if decide (length avail < n)%nat then
    (set_offset (offset f + length avail) f, Err io_ErrUnexpectedEOF)
  else (set_offset (offset f + n) f, Ok (take n avail)).

(** [File.Read(buf)] of package os, with [len(buf) = n] and [buf] freshly made (all
    zero): an empty buffer reads nothing; at the end of the file the result is
    [io.EOF]; otherwise the bytes that are there are copied, up to [n] of
    them, without an error when they are fewer than [n], and the rest of
    [buf] stays zero. *)
Definition Read (n : nat) (f : File) : File * result (list byte) :=
  let avail := pending f in
  if decide (n = 0%nat) then (f, Ok [])
  else if decide (length avail = 0%nat) then (f, Err io_EOF)
  else
    let got := take n avail in
    (set_offset (offset f + length got) f,
     Ok (got ++ repeat Byte.x00 (n - length got))).

(** [fd.Seek(d, os.SEEK_CUR)] for [d >= 0]. *)
Definition Seek_cur (d : nat) (f : File) : File := set_offset (offset f + d) f.

(** [fd.Seek(o, os.SEEK_SET)] *)
Definition Seek_set (o : nat) (f : File) : File := set_offset o f.

(** [fd.Seek(0, os.SEEK_END)] followed by writes of [bs]. *)
Definition append_end (bs : list byte) (f : File) : File :=
  mkFile (contents f ++ bs) (length (contents f) + length bs) (sync_fails f).

(** [fd.Sync()] *)
Definition Sync (f : File) : option error :=
  if sync_fails f then Some ErrSync else None.

Definition bindF {A B : Type} (m : File * result A)
    (k : File -> A -> File * result B) : File * result B :=
  match m with
  | (f, Ok a) => k f a
  | (f, Err e) => (f, Err e)
  | (f, Panic p) => (f, Panic p)
  | (f, OutOfFuel) => (f, OutOfFuel)
  end.

Notation "'let*' ( f , x ) ':=' m 'in' k" := (bindF m (fun f x => k))
  (at level 10, f name, x name, m at level 100, k at level 200).

(** ** Package db *)

Record DB : Type := mkDB {
  labels : gmap Z (list string);
  labelsChanged : gmap Z bool;
  haveMsgID : gmap Z bool;
  fd : File
}.

Definition set_fd (f : File) (db : DB) : DB :=
  mkDB (labels db) (labelsChanged db) (haveMsgID db) f.

(** [features&bit != 0] *)
Definition has_feature (features bit : Z) : bool :=
  negb (Z.land features bit =? 0).

Definition stringSliceToBytes (ss : list string) : list (list byte) :=
  map list_byte_of_string ss.

Definition bytesSliceToStrings (bs : list (list byte)) : list string :=
  map string_of_list_byte bs.

(** ** Package imap, as seen from package main *)

Module imap.
Record MsgID : Type := mkMsgID { UID : Z; MsgID_ : Z; Labels : list string }.
End imap.

(** ** Package main *)

Record MsgID : Type := mkMsgID { UID : Z; MsgID_ : Z }.

Record Progress : Type := mkProgress {
  toScan : Z; scanned : Z; fetched : Z; progress_labels : Z
}.

(** A channel of [MsgID]: the values sent and not yet received, and whether
    [close] has been called. Its capacity (100) only decides when a sender
    waits for room, which is not modelled. *)
Record Chan : Type := mkChan { queue : list MsgID; closed : bool }.

Definition send (v : MsgID) (c : Chan) : Chan := mkChan (queue c ++ [v]) (closed c).

Definition close (c : Chan) : Chan := mkChan (queue c) true.

Fixpoint sliceEquals (a b : list string) : bool :=
  match a, b with
  | [], [] => true
  | x :: a', y :: b' => if decide (x = y) then sliceEquals a' b' else false
  | _, _ => false
  end.

(** [strings.Join(a, sep)] *)
Fixpoint Join (a : list string) (sep : string) : string :=
  match a with
  | [] => EmptyString
  | [x] => x
  | x :: a' => (x ++ sep ++ Join a' sep)%string
  end.

(** [bytes.HasPrefix(s, prefix)] *)
Definition HasPrefix (s prefix : list byte) : bool :=
  bool_decide (take (length prefix) s = prefix).

(** ** What the program takes from outside

    The functions of the Go standard library that the two packages call, and
    the fetch of a message body from the mail server, which package imap
    does over the network. *)

Class Env : Type := {
  (** crypto/sha1: [ha.Write(bs); ha.Sum(nil)] *)
  sha1_Sum : list byte -> list byte;
  (** compress/gzip: the bytes a [gzip.Writer] leaves in its buffer after
      [Write(bs)] and [Close()]. *)
  gzip_Write : list byte -> list byte;
  (** compress/gzip and io/ioutil: [gzip.NewReader] followed by
      [ioutil.ReadAll]; [None] when either reports an error. *)
  gzip_ReadAll : list byte -> option (list byte);
  (** encoding/asn1 on the two record structures; [None] is an error of
      [asn1.Unmarshal]. [asn1.Marshal] has no error on these types. *)
  asn1_Marshal_Message : MessageRecord.t -> list byte;
  asn1_Unmarshal_Message : list byte -> option MessageRecord.t;
  asn1_Marshal_Labels : LabelsRecord -> list byte;
  asn1_Unmarshal_Labels : list byte -> option LabelsRecord;
  (** The order in which [for msgid := range db.labelsChanged] visits the
      keys of the map; Go leaves it unspecified. *)
  range_keys : gmap Z bool -> list Z;
  (** strconv: [strconv.FormatInt(i, 10)] *)
  FormatInt : Z -> string;
  (** bufio: the tokens a [bufio.Scanner] with its default split function
      yields on a buffer, until [Scan] returns false. *)
  Scanner_lines : list byte -> list (list byte);
  (** imap: [client.GetMail(uid)] *)
  GetMail : Z -> result (list byte)
}.

(** ** A stand-in for what comes from outside

    SHA-1, CRC-32, gzip members made of stored blocks, and DER for the two
    record structures, in their real formats, so that the model can be run
    on the bytes of actual archives. The gzip and DER readers cover the
    members and encodings that the writers here produce. *)

Module Sample.

Definition be_split (n : nat) (z : Z) : list byte := rev (le_split n z).
Definition be_combine (bs : list byte) : Z := le_combine (rev bs).

(** *** SHA-1 (FIPS 180-4) *)

Definition rotl (n x : Z) : Z :=
  Z.lor (Z.shiftl x n mod 2 ^ 32) (Z.shiftr x (32 - n)).

Definition sha1_pad (msg : list byte) : list byte :=
  let l := Z.of_nat (length msg) in
  msg ++ [Byte.x80] ++ repeat Byte.x00 (Z.to_nat ((55 - l) mod 64)) ++ be_split 8 (8 * l).

Fixpoint chunks (fuel : nat) (size : nat) (bs : list byte) : list (list byte) :=
  match fuel with
  | O => []
  | S fuel' =>
      match bs with
      | [] => []
      | _ => take size bs :: chunks fuel' size (drop size bs)
      end
  end.

Definition sha1_schedule (block : list byte) : list Z :=
  let w16 := map be_combine (chunks 16 4 block) in
  fold_left
    (fun w i =>
       w ++ [rotl 1 (Z.lxor (Z.lxor (nth (i - 3) w 0) (nth (i - 8) w 0))
                      (Z.lxor (nth (i - 14) w 0) (nth (i - 16) w 0)))])
    (seq 16 64) w16.

Definition sha1_round (st : Z * Z * Z * Z * Z) (iw : nat * Z) : Z * Z * Z * Z * Z :=
  let '(a, b, c, d, e) := st in
  let '(i, w) := iw in
  let '(f, k) :=
    if (i <? 20)%nat then
      (Z.lor (Z.land b c) (Z.land (Z.lxor b 0xFFFFFFFF) d), 0x5A827999)
    else if (i <? 40)%nat then (Z.lxor (Z.lxor b c) d, 0x6ED9EBA1)
    else if (i <? 60)%nat then
      (Z.lor (Z.lor (Z.land b c) (Z.land b d)) (Z.land c d), 0x8F1BBCDC)
    else (Z.lxor (Z.lxor b c) d, 0xCA62C1D6) in
  ((rotl 5 a + f + e + k + w) mod 2 ^ 32, a, rotl 30 b, c, d).

Definition sha1_block (h : Z * Z * Z * Z * Z) (block : list byte) : Z * Z * Z * Z * Z :=
  let '(h0, h1, h2, h3, h4) := h in
  let '(a, b, c, d, e) :=
    fold_left sha1_round (combine (seq 0 80) (sha1_schedule block)) h in
  ((h0 + a) mod 2 ^ 32, (h1 + b) mod 2 ^ 32, (h2 + c) mod 2 ^ 32,
   (h3 + d) mod 2 ^ 32, (h4 + e) mod 2 ^ 32).

Definition sha1_Sum (msg : list byte) : list byte :=
  let padded := sha1_pad msg in
  let '(h0, h1, h2, h3, h4) :=
    fold_left sha1_block (chunks (length padded) 64 padded)
      (0x67452301, 0xEFCDAB89, 0x98BADCFE, 0x10325476, 0xC3D2E1F0) in
  be_split 4 h0 ++ be_split 4 h1 ++ be_split 4 h2 ++ be_split 4 h3 ++ be_split 4 h4.

(** *** CRC-32 (IEEE) *)
Definition crc32_byte (crc : Z) (b : byte) : Z :=
  fold_left
    (fun c _ => if Z.testbit c 0 then Z.lxor (Z.shiftr c 1) 0xEDB88320 else Z.shiftr c 1)
    (seq 0 8) (Z.lxor crc (byte.unsigned b)).

Definition crc32 (bs : list byte) : Z :=
  Z.lxor (fold_left crc32_byte bs 0xFFFFFFFF) 0xFFFFFFFF.

(** *** gzip (RFC 1952) with stored deflate blocks (RFC 1951) *)

(** ID1, ID2, CM = deflate, FLG = 0, MTIME = 0, XFL = 0, OS = unknown. *)
Definition gzip_header : list byte :=
  [Byte.x1f; Byte.x8b; Byte.x08; Byte.x00; Byte.x00; Byte.x00; Byte.x00;
   Byte.x00; Byte.x00; Byte.xff].

Fixpoint stored_blocks (fuel : nat) (bs : list byte) : list byte :=
  match fuel with
  | O => []
  | S fuel' =>
      let chunk := take (Z.to_nat 65535) bs in
      let rest := drop (Z.to_nat 65535) bs in
      let len := Z.of_nat (length chunk) in
      let final := bool_decide (rest = []) in
      [if final then Byte.x01 else Byte.x00] ++
      le_split 2 len ++ le_split 2 (Z.lxor len 0xFFFF) ++ chunk ++
      (if final then [] else stored_blocks fuel' rest)
  end.

Definition gzip_trailer (data : list byte) : list byte :=
  le_split 4 (crc32 data) ++ le_split 4 (Z.of_nat (length data)).

Definition gzip_Write (bs : list byte) : list byte :=
  gzip_header ++ stored_blocks (S (length bs)) bs ++ gzip_trailer bs.

(** Stored blocks up to the final one: the data and what follows them. *)
Fixpoint inflate_stored (fuel : nat) (bs : list byte)
  : option (list byte * list byte) :=
  match fuel with
  | O => None
  | S fuel' =>
      match bs with
      | [] => None
      | hd :: r =>
          let h := byte.unsigned hd in
          let len := le_combine (take 2 r) in
          let nlen := le_combine (take 2 (drop 2 r)) in
          let body := drop 4 r in
          if negb (Z.land (Z.shiftr h 1) 3 =? 0) then None
          else if (length r <? 4)%nat then None
          else if negb (nlen =? Z.lxor len 0xFFFF) then None
          else if (length body <? Z.to_nat len)%nat then None
          else
            let chunk := take (Z.to_nat len) body in
            let rest := drop (Z.to_nat len) body in
            if Z.testbit h 0 then Some (chunk, rest)
            else
              match inflate_stored fuel' rest with
              | Some (data, rest') => Some (chunk ++ data, rest')
              | None => None
              end
      end
  end.

(** The header is read as a gzip reader reads it: the magic bytes and the
    method are checked, MTIME, XFL and OS are not looked at. A member with
    optional header fields (FLG other than 0), or with blocks that are
    not stored blocks, is outside this stand-in and reported as an error. *)
Definition gzip_ReadAll (bs : list byte) : option (list byte) :=
  if (length bs <? 10)%nat then None
  else if negb (bool_decide (take 3 bs = [Byte.x1f; Byte.x8b; Byte.x08])) then None
  else if negb (bool_decide (bs !! 3%nat = Some Byte.x00)) then None
  else
    match inflate_stored (length bs) (drop 10 bs) with
    | Some (data, trailer) =>
        if bool_decide (trailer = gzip_trailer data) then Some data else None
    | None => None
    end.

(** *** ASN.1 DER for the two record structures *)

Definition der_length (n : Z) : list byte :=
  if n <? 128 then [byte.of_Z n]
  else
    let k := Z.to_nat (Z.log2 n / 8 + 1) in
    byte.of_Z (128 + Z.of_nat k) :: be_split k n.

Definition der_tlv (tag : byte) (content : list byte) : list byte :=
  tag :: der_length (Z.of_nat (length content)) ++ content.

(** The shortest two's complement form of an integer. *)
Definition der_integer (z : Z) : list byte :=
  let m := if z <? 0 then - z - 1 else z in
  let k := Z.to_nat ((Z.log2 m + 1) / 8 + 1) in
  der_tlv Byte.x02 (be_split k z).

Definition asn1_Marshal_Message (m : MessageRecord.t) : list byte :=
  der_tlv Byte.x30
    (der_integer (MessageRecord.MessageID m) ++ der_tlv Byte.x04 (MessageRecord.Data m)).

Definition asn1_Marshal_Labels (l : LabelsRecord) : list byte :=
  der_tlv Byte.x30
    (flat_map
       (fun e =>
          der_tlv Byte.x30
            (der_integer (LabelsEntry.MessageID e) ++
             der_tlv Byte.x30 (flat_map (der_tlv Byte.x04) (LabelsEntry.Labels e))))
       l).

(** One tag-length-value: the tag, the content, and what follows. *)
Definition parse_tlv (bs : list byte) : option (byte * list byte * list byte) :=
  match bs with
  | tag :: l0 :: r =>
      let l := byte.unsigned l0 in
      if l <? 128 then
        if (length r <? Z.to_nat l)%nat then None
        else Some (tag, take (Z.to_nat l) r, drop (Z.to_nat l) r)
      else
        let n := Z.to_nat (l - 128) in
        let len := Z.to_nat (be_combine (take n r)) in
        let r' := drop n r in
        if (n =? 0)%nat || (length r <? n)%nat || (length r' <? len)%nat then None
        else Some (tag, take len r', drop len r')
  | _ => None
  end.

Definition expect (tag : byte) (bs : list byte) : option (list byte * list byte) :=
  match parse_tlv bs with
  | Some (t, content, rest) => if decide (t = tag) then Some (content, rest) else None
  | None => None
  end.

(** An INTEGER that fits an int64. *)
Definition parse_integer (bs : list byte) : option (Z * list byte) :=
  match expect Byte.x02 bs with
  | Some (hd :: tl, rest) =>
      let u := be_combine (hd :: tl) in
      let z := if 128 <=? byte.unsigned hd then u - 2 ^ (8 * Z.of_nat (length (hd :: tl))) else u in
      if (- 2 ^ 63 <=? z) && (z <? 2 ^ 63) then Some (z, rest) else None
  | _ => None
  end.

Definition asn1_Unmarshal_Message (bs : list byte) : option MessageRecord.t :=
  match expect Byte.x30 bs with
  | Some (content, _) =>
      match parse_integer content with
      | Some (id, rest) =>
          match expect Byte.x04 rest with
          | Some (data, []) => Some (MessageRecord.mk id data)
          | _ => None
          end
      | None => None
      end
  | None => None
  end.

Fixpoint parse_octet_strings (fuel : nat) (bs : list byte) : option (list (list byte)) :=
  match fuel with
  | O => None
  | S fuel' =>
      match bs with
      | [] => Some []
      | _ =>
          match expect Byte.x04 bs with
          | Some (s, rest) =>
              match parse_octet_strings fuel' rest with
              | Some ss => Some (s :: ss)
              | None => None
              end
          | None => None
          end
      end
  end.

Definition parse_entry (bs : list byte) : option (LabelsEntry.t * list byte) :=
  match expect Byte.x30 bs with
  | Some (content, rest) =>
      match parse_integer content with
      | Some (id, r) =>
          match expect Byte.x30 r with
          | Some (lbls, []) =>
              match parse_octet_strings (S (length lbls)) lbls with
              | Some ss => Some (LabelsEntry.mk id ss, rest)
              | None => None
              end
          | _ => None
          end
      | None => None
      end
  | None => None
  end.

Fixpoint parse_entries (fuel : nat) (bs : list byte) : option LabelsRecord :=
  match fuel with
  | O => None
  | S fuel' =>
      match bs with
      | [] => Some []
      | _ =>
          match parse_entry bs with
          | Some (e, rest) =>
              match parse_entries fuel' rest with
              | Some es => Some (e :: es)
              | None => None
              end
          | None => None
          end
      end
  end.

Definition asn1_Unmarshal_Labels (bs : list byte) : option LabelsRecord :=
  match expect Byte.x30 bs with
  | Some (content, _) => parse_entries (S (length content)) content
  | None => None
  end.

(** *** The rest *)

(** A [range] in the order of the keys as [map_to_list] gives them. *)
Definition range_keys (m : gmap Z bool) : list Z := (map_to_list m).*1.

(** [strconv.FormatInt(i, 10)] *)
Definition FormatInt (i : Z) : string :=
  DecimalString.NilZero.string_of_int (Z.to_int i).

(** The lines of a buffer: split at every newline, a carriage return
    before it dropped, nothing after the last newline giving no line. (A
    [bufio.Scanner] also gives up on a line of 64 KiB or more.) *)
Fixpoint lines_from (cur : list byte) (bs : list byte) : list (list byte) :=
  let drop_cr (l : list byte) :=
    match rev l with
    | Byte.x0d :: r => rev r
    | _ => l
    end in
  match bs with
  | [] => match cur with [] => [] | _ => [drop_cr cur] end
  | b :: bs' =>
      if decide (b = Byte.x0a) then drop_cr cur :: lines_from [] bs'
      else lines_from (cur ++ [b]) bs'
  end.

Definition Scanner_lines (bs : list byte) : list (list byte) := lines_from [] bs.

(** A server that has the same short message under every UID. *)
Definition GetMail (uid : Z) : result (list byte) :=
  Ok (list_byte_of_string "Subject: hello")%string.

Definition env : Env :=
  Build_Env sha1_Sum gzip_Write gzip_ReadAll
    asn1_Marshal_Message asn1_Unmarshal_Message
    asn1_Marshal_Labels asn1_Unmarshal_Labels
    range_keys FormatInt Scanner_lines GetMail.

End Sample.

Section Archive.

Context {ext : Env}.

(** *** The record codec *)

Definition compress (bs : list byte) : list byte := gzip_Write bs.

Definition hash (bs : list byte) : list byte := sha1_Sum bs.

Definition decompress (bs : list byte) : result (list byte) :=
  match gzip_ReadAll bs with
  | Some data => Ok data
  | None => Panic PanicGzip
  end.

(** The bytes [writeRecord] builds in [bs] (lines 573-582). *)
Definition encode (features : Z) (data : list byte) : list byte :=
  let bs := [] in
  let bs := if has_feature features FeatureHashed then bs ++ hash data else bs in
  if has_feature features FeatureCompressed then bs ++ compress data
  else bs ++ data.

(** What [nextRecord] does to the bytes it has read (lines 535-550):
    [data[:20]] and [data[20:]] panic on a slice shorter than 20. *)
Definition decode (features : Z) (data : list byte) : result (list byte) :=
  let* split :=
    (if has_feature features FeatureHashed then
       if decide (length data < 20)%nat then Panic PanicSliceBounds
       else Ok (take 20 data, drop 20 data)
     else Ok ([], data)) in
  let '(dhash, data) := split in
  let* data :=
    (if has_feature features FeatureCompressed then decompress data
     else Ok data) in
  if has_feature features FeatureHashed then
    let chash := hash data in
    if decide (chash = dhash) then Ok data
    else Panic PanicHashFailure
  else Ok data.

(** *** Reading records *)

(** [binary.Read(db.fd, binary.LittleEndian, &hdr)] *)
Definition read_Header (f : File) : File * result Header.t :=
  let* (f, bs) := ReadFull recordHeaderLength f in
  (f, Ok (get_Header bs)).

(** [asn1.Unmarshal(data, &v)] followed by [panic(err)] on an error. *)
Definition must_unmarshal {A : Type} (v : option A) : result A :=
  match v with
  | Some a => Ok a
  | None => Panic PanicAsn1
  end.

(** The [for] loop of [nextRecord]; every turn reads one record header, so
    [fuel] turns are enough on a file of fewer than [8 * fuel] bytes. *)
Fixpoint nextRecord_loop (fuel : nat) (recordType : Z) (f : File)
  : File * result record :=
  match fuel with
  | O => (f, OutOfFuel)
  | S fuel' =>
      let* (f, hdr) := read_Header f in
      if negb (recordType =? AnyType) && negb (Header.Type_ hdr =? recordType)
      then nextRecord_loop fuel' recordType
             (Seek_cur (Z.to_nat (Header.Length hdr)) f)
      else
        let* (f, data) := Read (Z.to_nat (Header.Length hdr)) f in
        let* (f, data) := (f, decode (Header.FeatureBits hdr) data) in
        if Header.Type_ hdr =? MessageRecordType then
          let* (f, msg) := (f, must_unmarshal (asn1_Unmarshal_Message data)) in
          (f, Ok (RMessage msg))
        else if Header.Type_ hdr =? LabelsRecordType then
          let* (f, lbl) := (f, must_unmarshal (asn1_Unmarshal_Labels data)) in
          (f, Ok (RLabels lbl))
        else nextRecord_loop fuel' recordType f
  end.

Definition nextRecord (recordType : Z) (f : File) : File * result record :=
  nextRecord_loop (S (length (contents f))) recordType f.

(** *** Writing records *)

Definition writeRecord (rtype features : Z) (data : list byte) (f : File)
  : File * option error :=
  let bs := encode features data in
  let hdr := Header.mk rtype features (uint32 (Z.of_nat (length bs))) in
  let f := append_end (put_Header hdr ++ bs) f in
  (f, Sync f).

(** *** The methods of DB *)

Definition Rewind (db : DB) : DB := set_fd (Seek_set fileHeaderLength (fd db)) db.

Definition Size (db : DB) : nat := size (haveMsgID db).

Definition HaveUID (db : DB) (msgid : Z) : bool :=
  default false (haveMsgID db !! msgid).

Definition Labels (db : DB) (msgid : Z) : list string :=
  default [] (labels db !! msgid).

Definition SetLabels (msgid : Z) (lbls : list string) (db : DB) : DB :=
  mkDB (<[msgid := lbls]> (labels db)) (<[msgid := true]> (labelsChanged db))
       (haveMsgID db) (fd db).

Definition WriteMessage (msgid : Z) (data : list byte) (db : DB)
  : DB * option error :=
  let rec := MessageRecord.mk msgid data in
  let bs := asn1_Marshal_Message rec in
  let (f, err) :=
    writeRecord MessageRecordType (Z.lor FeatureCompressed FeatureHashed) bs (fd db) in
  (set_fd f db, err).

Definition ReadMessage (db : DB) : DB * result MessageRecord.t :=
  let (f, r) := nextRecord MessageRecordType (fd db) in
  (set_fd f db,
   let* intf := r in
   match intf with
   | RMessage rec => Ok rec
   | RLabels _ => Panic PanicTypeAssertion
   end).

Definition WriteLabels (db : DB) : DB * option error :=
  let lbls : LabelsRecord :=
    map (fun msgid =>
           LabelsEntry.mk msgid
             (stringSliceToBytes (default [] (labels db !! msgid))))
        (range_keys (labelsChanged db)) in
  let bs := asn1_Marshal_Labels lbls in
  let (f, err) := writeRecord LabelsRecordType FeatureCompressed bs (fd db) in
  (mkDB (labels db) ∅ (haveMsgID db) f, err).

(** The replay step of [Open]: what one decoded record does to the maps. *)
Definition index_record (rec : record) (db : DB) : DB :=
  match rec with
  | RMessage trec =>
      mkDB (labels db) (labelsChanged db)
           (<[MessageRecord.MessageID trec := true]> (haveMsgID db)) (fd db)
  | RLabels trec =>
      fold_left
        (fun db lrec =>
           mkDB (<[LabelsEntry.MessageID lrec :=
                     bytesSliceToStrings (LabelsEntry.Labels lrec)]> (labels db))
                (labelsChanged db) (haveMsgID db) (fd db))
        trec db
  end.

(** The [for] loop of [Open] (lines 406-423). *)
Fixpoint Open_loop (fuel : nat) (db : DB) : result DB :=
  match fuel with
  | O => OutOfFuel
  | S fuel' =>
      match nextRecord AnyType (fd db) with
      | (f, Err e) =>
          if decide (e = io_EOF) then Ok (set_fd f db) else Err e
      | (f, Ok rec) => Open_loop fuel' (index_record rec (set_fd f db))
      | (f, Panic p) => Panic p
      | (f, OutOfFuel) => OutOfFuel
      end
  end.

(** [Open(name)]: [disk] holds the bytes of the file called [name] (none
    when [os.O_CREATE] has just made it), [now] is [time.Now().Unix()], and
    [sf] says whether [Sync] will fail on this file. *)
Definition Open (now : Z) (sf : bool) (disk : list byte) : result DB :=
  let f := mkFile disk 0 sf in
  let start :=
    if decide (length disk = 0%nat) then
      let fhdr :=
        FileHeader.mk fileMagic 1 0 0 (uint32 now) 0 0 0 0 in
      Ok (append_end (put_FileHeader fhdr) f)
    else
      let (f, r) := ReadFull fileHeaderLength f in
      let fhdr :=
        match r with Ok bs => get_FileHeader bs | _ => FileHeader.zero end in
      if decide (FileHeader.Magic fhdr = fileMagic) then Ok f
      else Err ErrIncorrectFormat in
  let* f := start in
  let* db := Open_loop (S (length (contents f))) (mkDB ∅ ∅ ∅ f) in
  Ok (Rewind db).

(** ** Package main, continued *)

(** *** findNewUIDs *)

(** The variables of the scanning goroutine. *)
Record Scan : Type := mkScan {
  begin : Z;          (* uint32 *)
  step : Z;           (* uint32 *)
  scan_db : DB;
  out : Chan;
  progress : Progress
}.

(** The state when the goroutine starts: [step := uint32(100)],
    [begin := uint32(1)], [progress.toScan] set, [out] empty. *)
Definition scan_init (messages : Z) (db : DB) (p : Progress) : Scan :=
  mkScan 1 100 db (mkChan [] false)
         (mkProgress messages (scanned p) (fetched p) (progress_labels p)).

(** The body of [for _, msgid := range msgids] (lines 178-190), on the
    database, the channel, the counter [fetch] and the progress counters. *)
Definition scan_msgid (acc : DB * Chan * Z * Progress) (msgid : imap.MsgID)
  : DB * Chan * Z * Progress :=
  let '(db, out, fetch, p) := acc in
  let '(out, fetch) :=
    if negb (HaveUID db (imap.MsgID_ msgid))
    then (send (mkMsgID (imap.UID msgid) (imap.MsgID_ msgid)) out, fetch + 1)
    else (out, fetch) in
  if negb (sliceEquals (imap.Labels msgid) (Labels db (imap.MsgID_ msgid)))
  then (SetLabels (imap.MsgID_ msgid) (imap.Labels msgid) db, out, fetch,
        mkProgress (toScan p) (scanned p) (fetched p) (progress_labels p + 1))
  else (db, out, fetch, p).

(** The adjustment of [step] at the end of a round (lines 197-204). *)
Definition adjust_step (fetch step : Z) : Z :=
  if (fetch =? 0) && (step <? 3200) then uint32 (step * 2)
  else if (0 <? fetch) && (100 <? step) then step / 2
  else step.

(** One turn of the scan loop once [MsgIDSearch] has answered [msgids]
    (lines 171-204); [Err e] stands for [log.Fatal(err)]. The second
    component is the value of [fetch] at the end of the turn. *)
Definition scan_round (msgids : list imap.MsgID) (s : Scan) : result (Scan * Z) :=
  let p := progress s in
  let p := mkProgress (toScan p) (scanned p + Z.of_nat (length msgids))
                      (fetched p) (progress_labels p) in
  let begin' := uint32 (begin s + step s) in
  let '(db, out, fetch, p) := fold_left scan_msgid msgids (scan_db s, out s, 0, p) in
  match WriteLabels db with
  | (db, None) => Ok (mkScan begin' (adjust_step fetch (step s)) db out p, fetch)
  | (db, Some e) => Err e
  end.

(** The scan loop (lines 161-206). [search n b e] is what the [n]-th call
    [client.MsgIDSearch(b, e)] returns, an error standing for the
    [log.Fatal(err)] that follows it. A loop that is still going after
    [fuel] turns gives [OutOfFuel]. *)
Fixpoint scan_loop (search : nat -> Z -> Z -> result (list imap.MsgID))
    (fuel n : nat) (messages : Z) (s : Scan) : result Scan :=
  match fuel with
  | O => OutOfFuel
  | S fuel' =>
      if begin s <? messages then
        let end_ := uint32 (begin s + step s - 1) in
        let* msgids := search n (begin s) end_ in
        let* turn := scan_round msgids s in
        scan_loop search fuel' (S n) messages turn.1
      else
        Ok (mkScan (begin s) (step s) (scan_db s) (close (out s)) (progress s))
  end.

(** The states the scan loop can be in at the head of a turn. *)
Inductive scan_reachable (messages : Z) (db : DB) (p : Progress) : Scan -> Prop :=
  | scan_start : scan_reachable messages db p (scan_init messages db p)
  | scan_turn s msgids s' fetch :
      scan_reachable messages db p s ->
      begin s < messages ->
      scan_round msgids s = Ok (s', fetch) ->
      scan_reachable messages db p s'.

(** *** fetchAndStore *)

(** How a statement ends: normally, or by a [break] that has not yet
    reached the statement it terminates. *)
Inductive completion : Type := Normal | Break.

(** What a worker shares with the rest of the program. *)
Record World : Type := mkWorld {
  w_db : DB;
  msgids : Chan;
  w_progress : Progress;
  wg : Z              (* the counter of the sync.WaitGroup *)
}.

Inductive outcome : Type :=
  | Completes (w : World) (c : completion)
  | Blocked (w : World)       (* waiting on the channel *)
  | Fatal (e : error)         (* log.Fatal *)
  | Panics (p : panic_value)
  | Running (w : World).      (* still in the loop after [fuel] turns *)

(** The communication clause [case msgid, ok := <-msgids:] and its body
    (lines 243-263). A receive on an empty channel waits unless the
    channel is closed, in which case it yields the zero value and
    [ok = false]. *)
Definition recv_case (w : World) : outcome :=
  let run (msgid : MsgID) (ok : bool) (w : World) : outcome :=
    if negb ok then Completes w Break
    else
      match GetMail (UID msgid) with
      | Ok body =>
          match WriteMessage (MsgID_ msgid) body (w_db w) with
          | (db, None) =>
              let p := w_progress w in
              Completes
                (mkWorld db (msgids w)
                   (mkProgress (toScan p) (scanned p) (fetched p + 1)
                               (progress_labels p))
                   (wg w))
                Normal
          | (db, Some e) => Fatal e
          end
      | Err e => Fatal e
      | Panic p => Panics p
      | OutOfFuel => Running w
      end in
  match queue (msgids w) with
  | msgid :: rest =>
      run msgid true
          (mkWorld (w_db w) (mkChan rest (closed (msgids w))) (w_progress w) (wg w))
  | [] =>
      if closed (msgids w) then run (mkMsgID 0 0) false w
      else Blocked w
  end.

(** A [select] statement: a [break] in one of its clauses terminates the
    [select] itself. *)
Definition select_stmt (clause : World -> outcome) (w : World) : outcome :=
  match clause w with
  | Completes w' Break => Completes w' Normal
  | o => o
  end.

(** A [for] statement without a condition: it ends only when its body
    ends by a [break] that is still pending. *)
Fixpoint for_stmt (fuel : nat) (body : World -> outcome) (w : World) : outcome :=
  match fuel with
  | O => Running w
  | S fuel' =>
      match body w with
      | Completes w' Normal => for_stmt fuel' body w'
      | Completes w' Break => Completes w' Normal
      | o => o
      end
  end.

(** [wg.Done()] *)
Definition wg_Done (w : World) : World :=
  mkWorld (w_db w) (msgids w) (w_progress w) (wg w - 1).

(** [fetchAndStore] once its client is connected (lines 241-267). *)
Definition fetchAndStore (fuel : nat) (w : World) : outcome :=
  match for_stmt fuel (select_stmt recv_case) w with
  | Completes w' c => Completes (wg_Done w') c
  | o => o
  end.

(** *** mbox *)

(** What [mbox] writes for one message (lines 284-298). *)
Definition mbox_entry (db : DB) (rec : MessageRecord.t) : list byte :=
  let nl := [Byte.x0a] in
  let from := list_byte_of_string "From "%string in
  let esc := list_byte_of_string ">"%string in
  let lbls := Labels db (MessageRecord.MessageID rec) in
  list_byte_of_string "From MAILER-DAEMON Thu Jan  1 01:00:00 1970"%string ++ nl ++
  (if decide (0 < length lbls)%nat
   then list_byte_of_string ("X-Gmail-Labels: " ++ Join lbls ", ")%string ++ nl
   else []) ++
  list_byte_of_string
    ("X-Gmail-MsgID: " ++ FormatInt (MessageRecord.MessageID rec))%string ++ nl ++
  flat_map (fun line =>
              (if HasPrefix line from then esc else []) ++ line ++ nl)
           (Scanner_lines (MessageRecord.Data rec)) ++
  nl.

(** The loop of [mbox] (lines 278-302): the bytes written to [wr] and
    [nwritten]. An error other than [io.EOF] leaves [rec] nil. *)
Fixpoint mbox_loop (fuel : nat) (db : DB) (wr : list byte) (nwritten : Z)
  : result (DB * list byte * Z) :=
  match fuel with
  | O => OutOfFuel
  | S fuel' =>
      match ReadMessage db with
      | (db, Err e) =>
          if decide (e = io_EOF) then Ok (db, wr, nwritten)
          else Panic PanicNilDeref
      | (db, Ok rec) =>
          mbox_loop fuel' db (wr ++ mbox_entry db rec) (nwritten + 1)
      | (db, Panic p) => Panic p
      | (db, OutOfFuel) => OutOfFuel
      end
  end.

Definition mbox (db : DB) : result (DB * list byte * Z) :=
  mbox_loop (S (length (contents (fd db)))) db [] 0.

(** ** Archives as sequences of records

    The vocabulary in which the properties of [Open] and [mbox] are
    stated: the bytes [writeRecord] appends for one record, and the log
    that a sequence of records makes. *)

(** The bytes [writeRecord rtype features data] appends to the file. *)
Definition record_bytes (rtype features : Z) (data : list byte) : list byte :=
  let bs := encode features data in
  put_Header (Header.mk rtype features (uint32 (Z.of_nat (length bs)))) ++ bs.

(** One record of a log: a Message record, a Labels record, or a record of
    another type (Delete, Have, ...) with its payload before encoding. *)
Inductive entry : Type :=
  | EMessage (features : Z) (m : MessageRecord.t)
  | ELabels (features : Z) (l : LabelsRecord)
  | EOther (rtype features : Z) (data : list byte).

Definition entry_type (e : entry) : Z :=
  match e with
  | EMessage _ _ => MessageRecordType
  | ELabels _ _ => LabelsRecordType
  | EOther rtype _ _ => rtype
  end.

Definition entry_features (e : entry) : Z :=
  match e with
  | EMessage features _ | ELabels features _ | EOther _ features _ => features
  end.

Definition entry_data (e : entry) : list byte :=
  match e with
  | EMessage _ m => asn1_Marshal_Message m
  | ELabels _ l => asn1_Marshal_Labels l
  | EOther _ _ data => data
  end.

Definition entry_bytes (e : entry) : list byte :=
  record_bytes (entry_type e) (entry_features e) (entry_data e).

Definition log_bytes (es : list entry) : list byte := flat_map entry_bytes es.

(** A record as [writeRecord] stores it and [nextRecord] gets it back: the
    header fields fit their widths, the stored payload decodes to the
    payload, a Message or Labels payload unmarshals to the structure it
    was marshalled from, and a record of another type is of another type. *)
Definition entry_ok (e : entry) : Prop :=
  0 <= entry_type e < 2 ^ 16 /\
  0 <= entry_features e < 2 ^ 16 /\
  Z.of_nat (length (encode (entry_features e) (entry_data e))) < 2 ^ 32 /\
  decode (entry_features e) (encode (entry_features e) (entry_data e))
    = Ok (entry_data e) /\
  match e with
  | EMessage _ m => asn1_Unmarshal_Message (asn1_Marshal_Message m) = Some m
  | ELabels _ l => asn1_Unmarshal_Labels (asn1_Marshal_Labels l) = Some l
  | EOther rtype _ _ => rtype <> MessageRecordType /\ rtype <> LabelsRecordType
  end.

(** What replaying one record of the log does to the maps of the index. *)
Definition replay_entry (db : DB) (e : entry) : DB :=
  match e with
  | EMessage _ m => index_record (RMessage m) db
  | ELabels _ l => index_record (RLabels l) db
  | EOther _ _ _ => db
  end.

Definition replay (es : list entry) (db : DB) : DB := fold_left replay_entry es db.

(** The Message records of a log, in file order. *)
Definition messages_of (es : list entry) : list MessageRecord.t :=
  flat_map (fun e => match e with EMessage _ m => [m] | _ => [] end) es.

(** A file header as [Open] accepts it: 40 bytes that start with the magic
    number. *)
Definition header_ok (fh : list byte) : Prop :=
  length fh = fileHeaderLength /\ le_combine (take 4 fh) = fileMagic.

(** A stored payload with one byte replaced. *)
Definition flip_byte (i : nat) (b : byte) (bs : list byte) : list byte :=
  <[i := b]> bs.

(** [f'] is [f] with the cursor moved forward. *)
Definition forward (f f' : File) : Prop :=
  contents f' = contents f /\ sync_fails f' = sync_fails f /\
  (offset f <= offset f')%nat.

(** The loop of [Open] with the fuel [Open] gives it. *)
Definition Open_run (db : DB) : result DB :=
  Open_loop (S (length (contents (fd db)))) db.

(** The database [Open] enters its loop with on an existing file. *)
Definition opened (sf : bool) (disk : list byte) : DB :=
  mkDB ∅ ∅ ∅ (mkFile disk fileHeaderLength sf).

(** The labels the last entry for [i] in a Labels record gives it, if the
    record has an entry for [i]. *)
Definition record_labels (l : LabelsRecord) (i : Z) : option (list (list byte)) :=
  fold_left
    (fun acc lrec =>
       if decide (LabelsEntry.MessageID lrec = i) then Some (LabelsEntry.Labels lrec)
       else acc)
    l None.

(** The record is a Labels record with an entry for [i]. *)
Definition mentions (i : Z) (e : entry) : Prop :=
  match e with
  | ELabels _ l => i ∈ map LabelsEntry.MessageID l
  | _ => False
  end.

(** The record is neither a Message nor a Labels record. *)
Definition is_other (e : entry) : bool :=
  match e with EOther _ _ _ => true | _ => false end.

(** The sizes the scan window takes. *)
Definition window_sizes : list Z := [100; 200; 400; 800; 1600; 3200].


(** ** More vocabulary for the properties *)

(** The Labels record [WriteLabels] builds from the database. *)
Definition flushed_labels (db : DB) : LabelsRecord :=
  map (fun msgid =>
         LabelsEntry.mk msgid (stringSliceToBytes (default [] (labels db !! msgid))))
      (range_keys (labelsChanged db)).

(** What [mbox] writes for one line of a message (lines 291-296). *)
Definition escape_line (line : list byte) : list byte :=
  (if HasPrefix line (list_byte_of_string "From "%string)
   then list_byte_of_string ">"%string else []) ++ line ++ [Byte.x0a].

(** The ids of the Message records of a log. *)
Definition message_ids (es : list entry) : list Z :=
  map MessageRecord.MessageID (messages_of es).

(** What the scan loop sends for a listing: the entries whose id the
    database does not know. *)
Definition unknown_of (db : DB) (msgids : list imap.MsgID) : list MsgID :=
  map (fun m => mkMsgID (imap.UID m) (imap.MsgID_ m))
      (filter (fun m => HaveUID db (imap.MsgID_ m) = false) msgids).

(** ** The earlier record format

    The first version of package db in src/db/db.go (lines 1-298) hashes
    and compresses every record. *)

(** How [checkDecompress] ends: with the data, by a panic, or by
    [log.Fatalf("Hash mismatch ...")]. *)
Inductive checked : Type :=
  | Checked (data : list byte)
  | CheckPanics (p : panic_value)
  | CheckFatal.

(** [compressedHashed] (lines 232-245) *)
Definition compressedHashed (bs : list byte) : list byte :=
  let data := sha1_Sum bs in
  let buf := gzip_Write bs in
  data ++ buf.

(** [checkDecompress] (lines 247-267); [bs[20:]] panics on fewer than 20
    bytes. *)
Definition checkDecompress (bs : list byte) : checked :=
  if decide (length bs < 20)%nat then CheckPanics PanicSliceBounds
  else
    match gzip_ReadAll (drop 20 bs) with
    | None => CheckPanics PanicGzip
    | Some data =>
        let hash := sha1_Sum data in
        if decide (hash = take 20 bs) then Checked data else CheckFatal
    end.

End Archive.

(** ** Sample archives

    Concrete payloads, records and archive files, built with the stand-in
    of module [Sample], on which the properties below are run. *)

Module Example.

#[local] Existing Instance Sample.env.

Definition B (s : string) : list byte := list_byte_of_string s.

(** The feature bits of a Message record. *)
Definition HC : Z := Z.lor FeatureCompressed FeatureHashed.

(** The header of an archive created on 25 October 2012. *)
Definition file_header : list byte :=
  put_FileHeader (FileHeader.mk fileMagic 1 0 0 1351123200 0 0 0 0).

Definition msg1 : MessageRecord.t := MessageRecord.mk 1 (B "Subject: one").
Definition msg7 : MessageRecord.t := MessageRecord.mk 7 (B "Subject: hello").

(** An archive with nothing but its header, and the database on it. *)
Definition db_empty : DB := opened false file_header.

(** An archive that holds message 7, and the database [Open] builds on it. *)
Definition archive7 : list byte := file_header ++ log_bytes [EMessage HC msg7].
Definition db7 : DB := replay [EMessage HC msg7] (opened false archive7).

(** The payload of the record of message 7 as it is stored: 20 bytes of
    hash, then a gzip member whose header ends at index 29 with the byte for
    the operating system. *)
Definition stored7 : list byte := encode HC (asn1_Marshal_Message msg7).

(** The same archive with the last record cut after 30 bytes of its 64 bytes
    of payload. *)
Definition archive7_cut : list byte :=
  file_header ++ take 38 (log_bytes [EMessage HC msg7]).

(** An archive ending with the header of a hashed record of 10 bytes, of
    which 3 are there. *)
Definition archive_short : list byte :=
  file_header ++ put_Header (Header.mk MessageRecordType FeatureHashed 10) ++
  [Byte.x01; Byte.x02; Byte.x03].

(** The header of a Message record of 64 bytes. *)
Definition header64 : list byte := put_Header (Header.mk MessageRecordType HC 64).

(** Two Labels records for message 1: first [a], then [b, c]. *)
Definition L1 : LabelsRecord := [LabelsEntry.mk 1 [B "a"]].
Definition L2 : LabelsRecord := [LabelsEntry.mk 1 [B "b"; B "c"]].
Definition archive_labels : list byte :=
  file_header ++ log_bytes ([ELabels FeatureCompressed L1] ++ ELabels FeatureCompressed L2 :: []).

(** A Delete record that lists message 1 (the DER of a SEQUENCE with the
    INTEGER 1), stored without hash or compression, after message 1. *)
Definition delete1 : entry :=
  EOther DeleteRecordType 0 [Byte.x30; Byte.x03; Byte.x02; Byte.x01; Byte.x01].
Definition archive_deleted : list byte :=
  file_header ++ log_bytes ([EMessage HC msg1] ++ delete1 :: []).

(** A database with the labels of messages 1 and 2 changed and not yet
    written. *)
Definition db_dirty : DB :=
  SetLabels 2 ["b"; "c"]%string (SetLabels 1 ["a"]%string db_empty).

(** A worker's world whose queue is closed and empty, with three workers
    counted in the wait group. *)
Definition world_drained : World :=
  mkWorld db_empty (mkChan [] true) (mkProgress 0 0 0 0) 3.


(** A file of the first version of the package: it starts with the four
    letters [gmls]. *)
Definition foreign_file : list byte := B "gmls" ++ repeat Byte.x00 40.

(** Three bytes of a record header. *)
Definition torn_header : list byte := [Byte.x01; Byte.x00; Byte.x03].

(** A database whose cursor is on the header of a Labels record of 100
    bytes, of which three are in the file. *)
Definition db_torn_labels : DB :=
  opened false (file_header ++ put_Header (Header.mk 2 1 100) ++
                [Byte.x01; Byte.x02; Byte.x03]).

(** A database whose file holds message 7 and then three bytes of a record
    header, with the cursor after the file header. *)
Definition db_torn_header : DB :=
  opened false (file_header ++ log_bytes [EMessage HC msg7] ++ torn_header).

(** The scan at its start on the archive that holds message 7, a listing
    of messages 7 and 8, and the state after the round on that listing. *)
Definition scan_start7 : Scan := scan_init 3 db7 (mkProgress 0 0 0 0).
Definition listing : list imap.MsgID :=
  [imap.mkMsgID 10 7 []; imap.mkMsgID 11 8 ["a"]%string].
Definition scan_next7 : Scan * Z :=
  match scan_round listing scan_start7 with
  | Ok r => r
  | _ => (scan_start7, 0)
  end.

(** A server without messages. *)
Definition search_nothing (n : nat) (b e : Z) : result (list imap.MsgID) := Ok [].

(** A worker's world with two messages queued on an open queue. *)
Definition world_queued : World :=
  mkWorld db_empty (mkChan [mkMsgID 10 7; mkMsgID 11 8] false) (mkProgress 0 0 0 0) 3.

End Example.

(** * Properties *)

Section Properties.

Context {ext : Env}.

(** ** The binary layer *)

Lemma length_put_Header h : length (put_Header h) = recordHeaderLength.
Proof. unfold put_Header. rewrite !length_app, !length_le_split. reflexivity. Qed.

Lemma length_put_FileHeader h : length (put_FileHeader h) = fileHeaderLength.
Proof. unfold put_FileHeader. rewrite !length_app, !length_le_split. reflexivity. Qed.

Lemma get_put_Header t ft len :
  0 <= t < 2 ^ 16 -> 0 <= ft < 2 ^ 16 -> 0 <= len < 2 ^ 32 ->
  get_Header (put_Header (Header.mk t ft len)) = Header.mk t ft len.
Proof.
  intros Ht Hft Hlen. unfold get_Header, put_Header. cbn [Header.Type_ Header.FeatureBits Header.Length].
  rewrite (take_app_length' (le_split 2 t)) by (rewrite length_le_split; reflexivity).
  rewrite (drop_app_length' (le_split 2 t)) by (rewrite length_le_split; reflexivity).
  rewrite (take_app_length' (le_split 2 ft)) by (rewrite length_le_split; reflexivity).
  rewrite app_assoc.
  rewrite (drop_app_length' (le_split 2 t ++ le_split 2 ft))
    by (rewrite length_app, !length_le_split; reflexivity).
  rewrite firstn_all2 by (rewrite length_le_split; lia).
  rewrite !le_combine_split.
  f_equal; apply Z.mod_small; cbn; lia.
Qed.

Lemma magic_put_FileHeader h :
  0 <= FileHeader.Magic h < 2 ^ 32 ->
  FileHeader.Magic (get_FileHeader (put_FileHeader h)) = FileHeader.Magic h.
Proof.
  intros Hm. unfold get_FileHeader, put_FileHeader. cbn [FileHeader.Magic].
  rewrite (take_app_length' (le_split 4 _)) by (rewrite length_le_split; reflexivity).
  rewrite le_combine_split. apply Z.mod_small. cbn; lia.
Qed.

(** ** The file *)

Lemma pending_set_offset f n :
  pending (set_offset (offset f + n) f) = drop n (pending f).
Proof. unfold pending, set_offset; cbn. rewrite drop_drop. reflexivity. Qed.

Lemma contents_set_offset f o : contents (set_offset o f) = contents f.
Proof. reflexivity. Qed.

Lemma set_offset_set_offset f o o' : set_offset o (set_offset o' f) = set_offset o f.
Proof. reflexivity. Qed.

Lemma set_offset_same f : set_offset (offset f) f = f.
Proof. destruct f; reflexivity. Qed.

Lemma length_pending f : length (pending f) = (length (contents f) - offset f)%nat.
Proof. unfold pending. apply length_drop. Qed.

Lemma ReadFull_app f n bs rest :
  pending f = bs ++ rest -> length bs = n -> (0 < n)%nat ->
  ReadFull n f = (set_offset (offset f + n) f, Ok bs).
Proof.
  intros Hp Hn Hpos. unfold ReadFull. rewrite Hp.
  rewrite length_app.
  destruct (decide _) as [E|_]; [lia|].
  destruct (decide _) as [E|_]; [lia|].
  rewrite take_app_length' by auto. reflexivity.
Qed.

Lemma ReadFull_nil f n : pending f = [] -> ReadFull n f = (f, Err io_EOF).
Proof. intros Hp. unfold ReadFull. rewrite Hp. reflexivity. Qed.

Lemma Read_app f n bs rest :
  pending f = bs ++ rest -> length bs = n ->
  Read n f = (set_offset (offset f + n) f, Ok bs).
Proof.
  intros Hp Hn. unfold Read. rewrite Hp.
  destruct (decide (n = 0%nat)) as [E|E].
  - subst n. destruct bs; [|discriminate]. rewrite E, Nat.add_0_r, set_offset_same.
    reflexivity.
  - rewrite length_app. destruct (decide _) as [E'|_]; [lia|].
    rewrite take_app_length' by auto. rewrite Hn, Nat.sub_diag. cbn [repeat].
    rewrite app_nil_r. reflexivity.
Qed.

Lemma Read_nil f n : pending f = [] -> (0 < n)%nat -> Read n f = (f, Err io_EOF).
Proof.
  intros Hp Hn. unfold Read. rewrite Hp.
  destruct (decide _) as [E|_]; [lia|]. reflexivity.
Qed.

(** ** The record codec *)

Lemma decode_encode features p :
  length (sha1_Sum p) = 20%nat ->
  gzip_ReadAll (gzip_Write p) = Some p ->
  decode features (encode features p) = Ok p.
Proof.
  intros sha1_Size gzip_roundtrip.
  unfold decode, encode, decompress, compress, hash, bind.
  destruct (has_feature features FeatureHashed),
           (has_feature features FeatureCompressed); cbn [app].
  - rewrite length_app, sha1_Size.
    destruct (decide _) as [E|_]; [lia|].
    rewrite take_app_length', drop_app_length' by auto.
    rewrite gzip_roundtrip. destruct (decide _); congruence.
  - rewrite length_app, sha1_Size.
    destruct (decide _) as [E|_]; [lia|].
    rewrite take_app_length', drop_app_length' by auto.
    destruct (decide _); congruence.
  - rewrite gzip_roundtrip. reflexivity.
  - reflexivity.
Qed.

(** C1. The stored payload of a record is the hash of the payload when the
    Hashed bit is set, followed by the compressed payload when the
    Compressed bit is set and by the payload itself otherwise; decoding it
    with the same feature bits gives the payload back. This holds for
    every payload whose SHA-1 sum has its 20 bytes and which the gzip
    reader gives back from what the gzip writer made of it. *)
Theorem codec_roundtrip features p :
  length (sha1_Sum p) = 20%nat ->
  gzip_ReadAll (gzip_Write p) = Some p ->
  encode features p =
    (if has_feature features FeatureHashed then hash p else []) ++
    (if has_feature features FeatureCompressed then compress p else p) /\
  decode features (encode features p) = Ok p.
Proof.
  intros Hsize Hgzip. split; [|exact (decode_encode features p Hsize Hgzip)].
  unfold encode.
  destruct (has_feature features FeatureHashed),
           (has_feature features FeatureCompressed); reflexivity.
Qed.

(** ** Reading a log *)

Lemma length_record_bytes t ft data :
  length (record_bytes t ft data) = (recordHeaderLength + length (encode ft data))%nat.
Proof. unfold record_bytes. cbn zeta. rewrite length_app, length_put_Header. reflexivity. Qed.

Lemma Seek_cur_Seek_cur f a b : Seek_cur b (Seek_cur a f) = Seek_cur (a + b) f.
Proof. unfold Seek_cur, set_offset; cbn. f_equal. lia. Qed.

Lemma pending_Seek_cur f n : pending (Seek_cur n f) = drop n (pending f).
Proof. apply pending_set_offset. Qed.

Lemma read_Header_at f t ft data rest :
  0 <= t < 2 ^ 16 -> 0 <= ft < 2 ^ 16 ->
  Z.of_nat (length (encode ft data)) < 2 ^ 32 ->
  pending f = record_bytes t ft data ++ rest ->
  read_Header f =
    (Seek_cur recordHeaderLength f,
     Ok (Header.mk t ft (Z.of_nat (length (encode ft data))))).
Proof.
  intros Ht Hft Hlen Hp. unfold read_Header, bindF.
  unfold record_bytes in Hp. cbn zeta in Hp. rewrite <- app_assoc in Hp.
  rewrite (ReadFull_app _ _ _ _ Hp (length_put_Header _)) by (cbv; lia).
  unfold uint32. rewrite Z.mod_small by lia.
  rewrite get_put_Header by lia. reflexivity.
Qed.

(** One turn of the loop of [nextRecord] with the cursor at a record
    that [writeRecord] wrote. *)
Lemma nextRecord_loop_at k rt f t ft data rest :
  0 <= t < 2 ^ 16 -> 0 <= ft < 2 ^ 16 ->
  Z.of_nat (length (encode ft data)) < 2 ^ 32 ->
  decode ft (encode ft data) = Ok data ->
  pending f = record_bytes t ft data ++ rest ->
  let f' := Seek_cur (length (record_bytes t ft data)) f in
  nextRecord_loop (S k) rt f =
    if negb (rt =? AnyType) && negb (t =? rt) then nextRecord_loop k rt f'
    else if t =? MessageRecordType then
      match asn1_Unmarshal_Message data with
      | Some msg => (f', Ok (RMessage msg))
      | None => (f', Panic PanicAsn1)
      end
    else if t =? LabelsRecordType then
      match asn1_Unmarshal_Labels data with
      | Some lbl => (f', Ok (RLabels lbl))
      | None => (f', Panic PanicAsn1)
      end
    else nextRecord_loop k rt f'.
Proof.
  intros Ht Hft Hlen Hdec Hp f'. subst f'.
  cbn [nextRecord_loop].
  rewrite (read_Header_at _ _ _ _ _ Ht Hft Hlen Hp).
  cbn [bindF Header.Type_ Header.FeatureBits Header.Length].
  rewrite Nat2Z.id, length_record_bytes.
  destruct (negb (rt =? AnyType) && negb (t =? rt)).
  - rewrite Seek_cur_Seek_cur. reflexivity.
  - assert (Hp' : pending (Seek_cur recordHeaderLength f) = encode ft data ++ rest).
    { rewrite pending_Seek_cur, Hp. unfold record_bytes. cbn zeta.
      rewrite <- app_assoc. apply drop_app_length'. rewrite length_put_Header.
      reflexivity. }
    rewrite (Read_app _ _ _ _ Hp' eq_refl).
    fold (Seek_cur (length (encode ft data)) (Seek_cur recordHeaderLength f)).
    rewrite Seek_cur_Seek_cur.
    cbn [bindF]. rewrite Hdec. cbn [bindF].
    destruct (t =? MessageRecordType).
    { destruct (asn1_Unmarshal_Message data); reflexivity. }
    destruct (t =? LabelsRecordType).
    { destruct (asn1_Unmarshal_Labels data); reflexivity. }
    reflexivity.
Qed.

(** *** The loop of [nextRecord] ends

    A call only moves the cursor forward, every turn of the loop passes a
    record header, and so the bound of the model is never reached. *)

Lemma forward_refl f : forward f f.
Proof. unfold forward; auto. Qed.

Lemma forward_trans f g h : forward f g -> forward g h -> forward f h.
Proof. unfold forward; intros (?&?&?) (?&?&?); repeat split; try congruence; lia. Qed.

Lemma forward_Seek_cur f n : forward f (Seek_cur n f).
Proof. unfold forward, Seek_cur, set_offset; cbn. repeat split; lia. Qed.

Lemma forward_pending f f' :
  forward f f' -> (length (pending f') <= length (pending f))%nat.
Proof. intros (Hc&_&Ho). rewrite !length_pending, Hc. lia. Qed.

Lemma read_Header_cases f f' r :
  read_Header f = (f', r) ->
  (exists hdr, r = Ok hdr /\ f' = Seek_cur recordHeaderLength f /\
               (recordHeaderLength <= length (pending f))%nat) \/
  (exists e, r = Err e /\ forward f f').
Proof.
  unfold read_Header, bindF, ReadFull.
  destruct (decide _) as [E|E]; [|destruct (decide _) as [E'|E']];
    intros [= <- <-].
  - right. eexists; split; [reflexivity|apply forward_refl].
  - right. eexists; split; [reflexivity|apply (forward_Seek_cur f)].
  - left. eexists; repeat split. lia.
Qed.

Lemma Read_cases n f f' r :
  Read n f = (f', r) ->
  forward f f' /\ ((exists bs, r = Ok bs) \/ (exists e, r = Err e)).
Proof.
  unfold Read.
  destruct (decide _) as [E|E]; [|destruct (decide _) as [E'|E']];
    intros [= <- <-].
  - split; [apply forward_refl|eauto].
  - split; [apply forward_refl|eauto].
  - split; [apply (forward_Seek_cur f)|eauto].
Qed.

Lemma pending_after_header f :
  (recordHeaderLength <= length (pending f))%nat ->
  (length (pending (Seek_cur recordHeaderLength f)) + recordHeaderLength
   = length (pending f))%nat.
Proof. intros H. rewrite pending_Seek_cur, length_drop. lia. Qed.

Lemma nextRecord_loop_forward k rt f :
  forward f (nextRecord_loop k rt f).1.
Proof.
  revert f. induction k as [|k IH]; intros f; cbn [nextRecord_loop].
  - apply forward_refl.
  - destruct (read_Header f) as [f1 r1] eqn:E1.
    apply read_Header_cases in E1 as [(hdr&->&->&Hlen)|(e&->&Hf)];
      cbn [bindF]; [|exact Hf].
    pose proof (forward_Seek_cur f recordHeaderLength) as H1.
    destruct (_ && _).
    { eapply forward_trans; [|apply IH].
      eapply forward_trans; [exact H1|apply forward_Seek_cur]. }
    destruct (Read _ _) as [f2 r2] eqn:E2.
    apply Read_cases in E2 as [H2 [(bs&->)|(e&->)]];
      cbn [bindF]; [|exact (forward_trans _ _ _ H1 H2)].
    pose proof (forward_trans _ _ _ H1 H2) as H12.
    destruct (decode _ bs); cbn [bindF]; try exact H12.
    destruct (_ =? _).
    { destruct (asn1_Unmarshal_Message _); exact H12. }
    destruct (_ =? _).
    { destruct (asn1_Unmarshal_Labels _); exact H12. }
    eapply forward_trans; [exact H12|apply IH].
Qed.

Lemma decode_cases features data :
  (exists d, decode features data = Ok d) \/
  (exists p, decode features data = Panic p).
Proof.
  unfold decode, decompress, bind.
  destruct (has_feature features FeatureHashed);
    [destruct (decide _); [eauto|]|];
    (destruct (has_feature features FeatureCompressed);
     [destruct (gzip_ReadAll _); [|eauto]|]);
    try destruct (decide _); eauto.
Qed.

(** With enough fuel the outcome does not depend on the fuel, and it is
    not [OutOfFuel]. *)
Lemma nextRecord_loop_fuel k1 : forall k2 rt f,
  (length (pending f) < recordHeaderLength * k1)%nat ->
  (length (pending f) < recordHeaderLength * k2)%nat ->
  nextRecord_loop k1 rt f = nextRecord_loop k2 rt f /\
  (nextRecord_loop k1 rt f).2 <> OutOfFuel.
Proof.
  induction k1 as [|k1 IH]; intros k2 rt f H1 H2; [lia|].
  destruct k2 as [|k2]; [lia|].
  cbn [nextRecord_loop].
  destruct (read_Header f) as [f1 r1] eqn:E1.
  apply read_Header_cases in E1 as [(hdr&->&->&Hlen)|(e&->&Hf)];
    cbn [bindF]; [|split; [reflexivity|discriminate]].
  pose proof (pending_after_header f Hlen) as Hp.
  destruct (_ && _).
  { pose proof (forward_pending _ _ (forward_Seek_cur (Seek_cur recordHeaderLength f)
                   (Z.to_nat (Header.Length hdr)))).
    apply IH; lia. }
  destruct (Read _ _) as [f2 r2] eqn:E2.
  apply Read_cases in E2 as [F2 [(bs&->)|(e&->)]];
    cbn [bindF]; [|split; [reflexivity|discriminate]].
  apply forward_pending in F2.
  destruct (decode_cases (Header.FeatureBits hdr) bs) as [(d&->)|(p&->)];
    cbn [bindF]; [|split; [reflexivity|discriminate]].
  destruct (_ =? _).
  { destruct (asn1_Unmarshal_Message _); split; (reflexivity || discriminate). }
  destruct (_ =? _).
  { destruct (asn1_Unmarshal_Labels _); split; (reflexivity || discriminate). }
  apply IH; lia.
Qed.

Lemma enough_fuel f : (length (pending f) < recordHeaderLength * S (length (contents f)))%nat.
Proof. rewrite length_pending. unfold recordHeaderLength. lia. Qed.

Lemma nextRecord_enough k rt f :
  (length (pending f) < recordHeaderLength * k)%nat ->
  nextRecord rt f = nextRecord_loop k rt f.
Proof.
  intros H. unfold nextRecord. symmetry.
  apply nextRecord_loop_fuel; [exact H|apply enough_fuel].
Qed.

Lemma nextRecord_total rt f : (nextRecord rt f).2 <> OutOfFuel.
Proof. unfold nextRecord. apply (nextRecord_loop_fuel _ _ rt f (enough_fuel f) (enough_fuel f)). Qed.

Lemma nextRecord_forward rt f : forward f (nextRecord rt f).1.
Proof. apply nextRecord_loop_forward. Qed.

(** A record returned means a header was passed. *)
Lemma nextRecord_loop_Ok k : forall rt f f' rec,
  nextRecord_loop k rt f = (f', Ok rec) ->
  (length (pending f') + recordHeaderLength <= length (pending f))%nat.
Proof.
  induction k as [|k IH]; intros rt f f' rec; cbn [nextRecord_loop]; [discriminate|].
  destruct (read_Header f) as [f1 r1] eqn:E1.
  apply read_Header_cases in E1 as [(hdr&->&->&Hlen)|(e&->&Hf)];
    cbn [bindF]; [|discriminate].
  pose proof (pending_after_header f Hlen) as Hp.
  destruct (_ && _).
  { intros H%IH.
    pose proof (forward_pending _ _ (forward_Seek_cur (Seek_cur recordHeaderLength f)
                   (Z.to_nat (Header.Length hdr)))). lia. }
  destruct (Read _ _) as [f2 r2] eqn:E2.
  apply Read_cases in E2 as [F2 [(bs&->)|(e&->)]]; cbn [bindF]; [|discriminate].
  apply forward_pending in F2.
  destruct (decode_cases (Header.FeatureBits hdr) bs) as [(d&->)|(p&->)];
    cbn [bindF]; [|discriminate].
  destruct (_ =? _).
  { destruct (asn1_Unmarshal_Message _); intros [= <- <-]. lia. }
  destruct (_ =? _).
  { destruct (asn1_Unmarshal_Labels _); intros [= <- <-]. lia. }
  intros H%IH. lia.
Qed.

(** *** The loop of [Open] *)

Lemma fd_index_record rec db : fd (index_record rec db) = fd db.
Proof.
  destruct rec as [m|l]; [reflexivity|]. cbn [index_record].
  revert db. induction l as [|x l IH]; intros db; [reflexivity|].
  cbn [fold_left]. rewrite IH. reflexivity.
Qed.

Lemma index_record_set_fd rec f db :
  index_record rec (set_fd f db) = set_fd f (index_record rec db).
Proof.
  destruct rec as [m|l]; [reflexivity|]. cbn [index_record].
  revert db. induction l as [|x l IH]; intros db; [reflexivity|].
  cbn [fold_left]. rewrite <- IH. reflexivity.
Qed.

Lemma labelsChanged_index_record rec db :
  labelsChanged (index_record rec db) = labelsChanged db.
Proof.
  destruct rec as [m|l]; [reflexivity|]. cbn [index_record].
  revert db. induction l as [|x l IH]; intros db; [reflexivity|].
  cbn [fold_left]. rewrite IH. reflexivity.
Qed.

Lemma set_fd_set_fd f g db : set_fd f (set_fd g db) = set_fd f db.
Proof. reflexivity. Qed.

Lemma set_fd_same db : set_fd (fd db) db = db.
Proof. destruct db; reflexivity. Qed.

Lemma Open_loop_fuel k1 : forall k2 db,
  (length (pending (fd db)) < recordHeaderLength * k1)%nat ->
  (length (pending (fd db)) < recordHeaderLength * k2)%nat ->
  Open_loop k1 db = Open_loop k2 db /\ Open_loop k1 db <> OutOfFuel.
Proof.
  induction k1 as [|k1 IH]; intros k2 db H1 H2; [lia|].
  destruct k2 as [|k2]; [lia|].
  cbn [Open_loop].
  pose proof (nextRecord_total AnyType (fd db)) as Ht.
  destruct (nextRecord AnyType (fd db)) as [f r] eqn:E.
  destruct r as [rec|e|p|]; cbn in Ht; try congruence.
  - apply nextRecord_loop_Ok in E.
    apply IH; rewrite fd_index_record; cbn [fd set_fd]; lia.
  - destruct (decide _); split; (reflexivity || discriminate).
  - split; [reflexivity|discriminate].
Qed.

Lemma Open_loop_enough k db :
  (length (pending (fd db)) < recordHeaderLength * k)%nat ->
  Open_loop k db = Open_run db.
Proof. intros H. apply Open_loop_fuel; [exact H|apply enough_fuel]. Qed.

Lemma Open_run_unfold db :
  Open_run db =
    match nextRecord AnyType (fd db) with
    | (f, Err e) => if decide (e = io_EOF) then Ok (set_fd f db) else Err e
    | (f, Ok rec) => Open_run (index_record rec (set_fd f db))
    | (f, Panic p) => Panic p
    | (f, OutOfFuel) => OutOfFuel
    end.
Proof.
  unfold Open_run at 1. cbn [Open_loop].
  destruct (nextRecord AnyType (fd db)) as [f [rec|e|p|]] eqn:E; try reflexivity.
  apply Open_loop_enough. rewrite fd_index_record. cbn [fd set_fd].
  apply nextRecord_loop_Ok in E.
  pose proof (enough_fuel (fd db)). lia.
Qed.

Lemma Open_run_skip db f' :
  nextRecord AnyType (fd db) = nextRecord AnyType f' ->
  Open_run db = Open_run (set_fd f' db).
Proof.
  intros H. rewrite (Open_run_unfold db), (Open_run_unfold (set_fd f' db)).
  cbn [fd set_fd]. rewrite H. reflexivity.
Qed.

Lemma replay_set_fd es : forall f db,
  replay es (set_fd f db) = set_fd f (replay es db).
Proof.
  induction es as [|e es IH]; intros f db; [reflexivity|].
  unfold replay in *. cbn [fold_left].
  destruct e; cbn [replay_entry]; rewrite ?index_record_set_fd; apply IH.
Qed.

Lemma fd_replay es : forall db, fd (replay es db) = fd db.
Proof.
  induction es as [|e es IH]; intros db; [reflexivity|].
  unfold replay in *. cbn [fold_left]. rewrite IH.
  destruct e; cbn [replay_entry]; rewrite ?fd_index_record; reflexivity.
Qed.

Lemma labelsChanged_replay es : forall db,
  labelsChanged (replay es db) = labelsChanged db.
Proof.
  induction es as [|e es IH]; intros db; [reflexivity|].
  unfold replay in *. cbn [fold_left]. rewrite IH.
  destruct e; cbn [replay_entry]; rewrite ?labelsChanged_index_record; reflexivity.
Qed.

Lemma entry_bytes_length e :
  (recordHeaderLength <= length (entry_bytes e))%nat.
Proof. unfold entry_bytes. rewrite length_record_bytes. lia. Qed.

(** [nextRecord(AnyType)] with the cursor at a record of the log. *)
Lemma nextRecord_any_entry f e rest :
  entry_ok e -> pending f = entry_bytes e ++ rest ->
  let f' := Seek_cur (length (entry_bytes e)) f in
  nextRecord AnyType f =
    match e with
    | EMessage _ m => (f', Ok (RMessage m))
    | ELabels _ l => (f', Ok (RLabels l))
    | EOther _ _ _ => nextRecord AnyType f'
    end.
Proof.
  intros (Ht&Hft&Hlen&Hdec&Hk) Hp f'. unfold nextRecord at 1.
  unfold entry_bytes in *.
  rewrite (nextRecord_loop_at _ AnyType _ _ _ _ _ Ht Hft Hlen Hdec Hp).
  cbn [negb andb Z.eqb AnyType].
  destruct e as [ft m|ft l|t ft data]; cbn [entry_type entry_data] in *.
  - cbn. rewrite Hk. reflexivity.
  - cbn. rewrite Hk. reflexivity.
  - destruct Hk as [Hm Hl].
    destruct (Z.eqb_spec t MessageRecordType) as [?|_]; [contradiction|].
    destruct (Z.eqb_spec t LabelsRecordType) as [?|_]; [contradiction|].
    symmetry. apply nextRecord_enough.
    unfold f'. rewrite pending_Seek_cur, Hp, length_drop, length_app.
    pose proof (length_pending f) as He. rewrite Hp, length_app in He.
    rewrite length_record_bytes in *. unfold recordHeaderLength in *. lia.
Qed.

(** The loop of [Open] over a log replays its records. *)
Lemma Open_run_log es : forall db rest,
  Forall entry_ok es ->
  pending (fd db) = log_bytes es ++ rest ->
  Open_run db =
    Open_run (replay es (set_fd (Seek_cur (length (log_bytes es)) (fd db)) db)).
Proof.
  induction es as [|e es IH]; intros db rest Hok Hp.
  - cbn. unfold Seek_cur. rewrite Nat.add_0_r, set_offset_same, set_fd_same.
    reflexivity.
  - apply Forall_cons in Hok as [He Hes].
    cbn [log_bytes flat_map] in *. rewrite <- app_assoc in Hp.
    fold (log_bytes es) in *.
    pose proof (nextRecord_any_entry _ _ _ He Hp) as Hn. cbn zeta in Hn.
    set (f' := Seek_cur (length (entry_bytes e)) (fd db)) in *.
    assert (Hp' : pending f' = log_bytes es ++ rest).
    { unfold f'. rewrite pending_Seek_cur, Hp. apply drop_app_length. }
    rewrite length_app, <- Seek_cur_Seek_cur. fold f'.
    unfold replay. cbn [fold_left]. fold (replay es).
    destruct e as [ft m|ft l|t ft data]; cbn [replay_entry].
    + rewrite Open_run_unfold, Hn.
      rewrite (IH _ rest Hes) by (rewrite fd_index_record; exact Hp').
      rewrite fd_index_record. cbn [fd set_fd].
      rewrite !index_record_set_fd, !replay_set_fd. reflexivity.
    + rewrite Open_run_unfold, Hn.
      rewrite (IH _ rest Hes) by (rewrite fd_index_record; exact Hp').
      rewrite fd_index_record. cbn [fd set_fd].
      rewrite !index_record_set_fd, !replay_set_fd. reflexivity.
    + rewrite (Open_run_skip db f' Hn).
      rewrite (IH _ rest Hes) by exact Hp'.
      cbn [fd set_fd]. rewrite !replay_set_fd. reflexivity.
Qed.

(** *** [Open] *)

Lemma Open_existing now sf fh body :
  header_ok fh ->
  Open now sf (fh ++ body) =
    let* db := Open_run (opened sf (fh ++ body)) in
    Ok (Rewind db).
Proof.
  intros [Hlen Hmagic]. unfold Open.
  destruct (decide _) as [E|_].
  { rewrite length_app, Hlen in E. discriminate. }
  rewrite (ReadFull_app (mkFile (fh ++ body) 0 sf) fileHeaderLength fh body)
    by (auto; cbv; lia).
  cbn [get_FileHeader FileHeader.Magic]. rewrite Hmagic.
  destruct (decide _) as [_|N]; [|contradiction].
  reflexivity.
Qed.

Lemma Open_run_EOF db f :
  nextRecord AnyType (fd db) = (f, Err io_EOF) -> Open_run db = Ok (set_fd f db).
Proof.
  intros H. rewrite Open_run_unfold, H. destruct (decide _); congruence.
Qed.

Lemma nextRecord_at_end rt f : pending f = [] -> nextRecord rt f = (f, Err io_EOF).
Proof.
  intros H. unfold nextRecord. cbn [nextRecord_loop]. unfold read_Header.
  rewrite ReadFull_nil by exact H. reflexivity.
Qed.

(** A new archive: the header is written and the index is empty. *)
Lemma Open_new now sf :
  Open now sf [] =
    Ok (opened sf (put_FileHeader (FileHeader.mk fileMagic 1 0 0 (uint32 now) 0 0 0 0))).
Proof.
  unfold Open. cbn [length]. destruct (decide _) as [_|N]; [|contradiction].
  unfold append_end. cbn [bind contents length app Nat.add sync_fails].
  set (fh := put_FileHeader _).
  assert (Hfh : length fh = fileHeaderLength) by apply length_put_FileHeader.
  rewrite Hfh.
  rewrite (Open_loop_enough _ (mkDB ∅ ∅ ∅ (mkFile fh fileHeaderLength sf))).
  2:{ rewrite length_pending. cbn. unfold recordHeaderLength. lia. }
  rewrite (Open_run_EOF _ (mkFile fh fileHeaderLength sf)).
  - reflexivity.
  - apply nextRecord_at_end. unfold pending; cbn [contents offset fd].
    rewrite <- Hfh. apply drop_all.
Qed.

(** [Open] on a header, a log, and a tail at which [nextRecord] reports
    the end of the file: the index is the replay of the log. *)
Lemma Open_log_tail now sf fh es tail :
  header_ok fh -> Forall entry_ok es ->
  (forall f, pending f = tail -> exists f', nextRecord AnyType f = (f', Err io_EOF)) ->
  Open now sf (fh ++ log_bytes es ++ tail) =
    Ok (replay es (opened sf (fh ++ log_bytes es ++ tail))).
Proof.
  intros Hfh Hes Htail. rewrite (Open_existing _ _ _ _ Hfh).
  assert (Hp : pending (fd (opened sf (fh ++ log_bytes es ++ tail)))
               = log_bytes es ++ tail).
  { unfold pending; cbn. apply drop_app_length'. symmetry. apply Hfh. }
  rewrite (Open_run_log es _ tail Hes Hp).
  set (f1 := Seek_cur _ _).
  destruct (Htail f1) as [f' Hn].
  { unfold f1. rewrite pending_Seek_cur, Hp. apply drop_app_length. }
  rewrite (Open_run_EOF _ f').
  2:{ rewrite fd_replay. exact Hn. }
  pose proof (nextRecord_forward AnyType f1) as Hf. rewrite Hn in Hf.
  destruct Hf as (Hc&Hs&_). cbn in Hc, Hs.
  assert (Hg : Seek_set fileHeaderLength f' = fd (opened sf (fh ++ log_bytes es ++ tail))).
  { unfold Seek_set, set_offset. rewrite Hc, Hs. reflexivity. }
  cbn [bind]. unfold Rewind. cbn [fd set_fd]. rewrite Hg.
  f_equal.
  change (set_fd (fd (opened sf (fh ++ log_bytes es ++ tail)))
            (replay es (set_fd f1 (opened sf (fh ++ log_bytes es ++ tail))))
          = replay es (opened sf (fh ++ log_bytes es ++ tail))).
  rewrite <- replay_set_fd, set_fd_set_fd, set_fd_same. reflexivity.
Qed.

Lemma Open_log now sf fh es :
  header_ok fh -> Forall entry_ok es ->
  Open now sf (fh ++ log_bytes es) = Ok (replay es (opened sf (fh ++ log_bytes es))).
Proof.
  intros Hfh Hes.
  pose proof (Open_log_tail now sf fh es [] Hfh Hes) as H.
  rewrite app_nil_r in H. apply H.
  intros f Hp. exists f. apply nextRecord_at_end, Hp.
Qed.

(** [Open] ends: its outcome is never the loop bound of the model. *)
Lemma Open_total now sf disk : Open now sf disk <> OutOfFuel.
Proof.
  assert (Hloop : forall f,
            (let* db := Open_loop (S (length (contents f))) (mkDB ∅ ∅ ∅ f) in
             Ok (Rewind db)) <> OutOfFuel).
  { intros f.
    pose proof (proj2 (Open_loop_fuel _ _ (mkDB ∅ ∅ ∅ f)
                         (enough_fuel f) (enough_fuel f))) as H.
    cbn [fd] in H. destruct (Open_loop _ _); cbn [bind]; congruence. }
  unfold Open.
  destruct (decide (length disk = 0%nat)) as [_|_]; cbn [bind]; [apply Hloop|].
  destruct (ReadFull fileHeaderLength _) as [f r].
  destruct (decide _); cbn [bind]; [apply Hloop|discriminate].
Qed.

(** ** Writing *)

Lemma writeRecord_appends rtype features data f :
  writeRecord rtype features data f =
    (append_end (record_bytes rtype features data) f, Sync f).
Proof. reflexivity. Qed.

Lemma WriteMessage_spec msgid data db :
  WriteMessage msgid data db =
    (set_fd (append_end
               (entry_bytes (EMessage (Z.lor FeatureCompressed FeatureHashed)
                               (MessageRecord.mk msgid data)))
               (fd db)) db,
     Sync (fd db)).
Proof. reflexivity. Qed.

Lemma WriteLabels_spec db :
  WriteLabels db =
    (mkDB (labels db) ∅ (haveMsgID db)
       (append_end
          (entry_bytes
             (ELabels FeatureCompressed
                (map (fun msgid =>
                        LabelsEntry.mk msgid (stringSliceToBytes (Labels db msgid)))
                     (range_keys (labelsChanged db)))))
          (fd db)),
     Sync (fd db)).
Proof. reflexivity. Qed.

(** C10. [WriteLabels] appends one Labels record, written compressed,
    whose entries are the ids marked in [labelsChanged], each once and
    each with the labels the map [labels] has for it at that moment; it
    leaves [labelsChanged] empty and [labels] and [haveMsgID] as they
    were. With nothing marked, the record it appends has no entries. The
    [range] over [labelsChanged] visits every key of the map once. *)
Theorem WriteLabels_flushes_dirty db :
  NoDup (range_keys (labelsChanged db)) ->
  (forall k, k ∈ range_keys (labelsChanged db) <-> is_Some (labelsChanged db !! k)) ->
  exists lbls : LabelsRecord,
    contents (fd (WriteLabels db).1) =
      contents (fd db) ++ entry_bytes (ELabels FeatureCompressed lbls) /\
    NoDup (map LabelsEntry.MessageID lbls) /\
    (forall e, e ∈ lbls <->
       is_Some (labelsChanged db !! LabelsEntry.MessageID e) /\
       LabelsEntry.Labels e = stringSliceToBytes (Labels db (LabelsEntry.MessageID e))) /\
    labelsChanged (WriteLabels db).1 = ∅ /\
    labels (WriteLabels db).1 = labels db /\
    haveMsgID (WriteLabels db).1 = haveMsgID db /\
    (labelsChanged db = ∅ -> lbls = []).
Proof.
  intros Hnd Hin.
  rewrite WriteLabels_spec. cbn [fst fd contents labels labelsChanged haveMsgID append_end].
  eexists. split; [reflexivity|].
  repeat split; try reflexivity.
  - rewrite map_map. cbn. rewrite map_id. exact Hnd.
  - apply list_elem_of_fmap in H as (k&->&Hk). cbn. apply Hin, Hk.
  - apply list_elem_of_fmap in H as (k&->&Hk). reflexivity.
  - intros [Hk Hl]. apply list_elem_of_fmap. exists (LabelsEntry.MessageID e).
    split; [|apply Hin, Hk]. destruct e; cbn in *. congruence.
  - intros Hempty.
    destruct (range_keys (labelsChanged db)) as [|k ks]; [reflexivity|].
    destruct (proj1 (Hin k)) as [x Hx]; [left|].
    rewrite Hempty, lookup_empty in Hx. discriminate.
Qed.

(** ** The index after a replay *)

Lemma replay_app es1 es2 db : replay (es1 ++ es2) db = replay es2 (replay es1 db).
Proof. unfold replay. apply fold_left_app. Qed.

Lemma haveMsgID_index_labels l db :
  haveMsgID (index_record (RLabels l) db) = haveMsgID db.
Proof.
  cbn [index_record]. revert db. induction l as [|x l IH]; intros db; [reflexivity|].
  cbn [fold_left]. rewrite IH. reflexivity.
Qed.

Lemma labels_index_labels l : forall db i,
  labels (index_record (RLabels l) db) !! i =
    match record_labels l i with
    | Some ls => Some (bytesSliceToStrings ls)
    | None => labels db !! i
    end.
Proof.
  unfold record_labels. cbn [index_record].
  induction l as [|x l IH] using rev_ind; intros db i; [reflexivity|].
  rewrite !fold_left_app. cbn [fold_left labels].
  destruct (decide (LabelsEntry.MessageID x = i)) as [->|N].
  - apply lookup_insert_eq.
  - rewrite lookup_insert_ne by exact N. apply IH.
Qed.

Lemma record_labels_None l i :
  i ∉ map LabelsEntry.MessageID l -> record_labels l i = None.
Proof.
  unfold record_labels. induction l as [|x l IH] using rev_ind; intros H; [reflexivity|].
  rewrite fold_left_app. cbn [fold_left]. rewrite map_app in H.
  destruct (decide _) as [E|_].
  - exfalso. apply H. apply elem_of_app. right. cbn. rewrite E. left.
  - apply IH. intros Hi. apply H. apply elem_of_app. left. exact Hi.
Qed.

(** Records that do not mention [i] leave its labels as they are. *)
Lemma labels_replay_unmentioned es i : forall db,
  Forall (fun e => ~ mentions i e) es ->
  labels (replay es db) !! i = labels db !! i.
Proof.
  induction es as [|e es IH]; intros db H; [reflexivity|].
  apply Forall_cons in H as [He Hes].
  unfold replay in *. cbn [fold_left]. rewrite (IH _ Hes).
  destruct e as [ft m|ft l|t ft data]; cbn [replay_entry]; try reflexivity.
  rewrite labels_index_labels, record_labels_None; [reflexivity|exact He].
Qed.

(** The index does not depend on the file the database holds. *)
Lemma replay_maps es f db :
  labels (replay es (set_fd f db)) = labels (replay es db) /\
  haveMsgID (replay es (set_fd f db)) = haveMsgID (replay es db).
Proof. rewrite replay_set_fd. split; reflexivity. Qed.

Lemma HaveUID_replay_message es ft m db :
  HaveUID (replay (es ++ [EMessage ft m]) db) (MessageRecord.MessageID m) = true.
Proof.
  rewrite replay_app. unfold replay at 1. cbn [fold_left replay_entry index_record].
  unfold HaveUID. cbn [haveMsgID]. rewrite lookup_insert_eq. reflexivity.
Qed.

Lemma log_bytes_app es1 es2 : log_bytes (es1 ++ es2) = log_bytes es1 ++ log_bytes es2.
Proof. unfold log_bytes. apply flat_map_app. Qed.

Lemma log_bytes_single e : log_bytes [e] = entry_bytes e.
Proof. unfold log_bytes. cbn. apply app_nil_r. Qed.

(** ** Appending a message *)

(** C3, as the code has it. [WriteMessage] does not consult the index:
    for an id that [HaveUID] already reports, and a [Sync] that succeeds,
    it returns no error and the file has grown by one more Message record
    for that id; the index is untouched. *)
Theorem WriteMessage_known_id_appends db msgid data :
  HaveUID db msgid = true ->
  sync_fails (fd db) = false ->
  exists db',
    WriteMessage msgid data db = (db', None) /\
    contents (fd db') =
      contents (fd db) ++
      entry_bytes (EMessage (Z.lor FeatureCompressed FeatureHashed)
                     (MessageRecord.mk msgid data)) /\
    haveMsgID db' = haveMsgID db /\ labels db' = labels db /\
    labelsChanged db' = labelsChanged db.
Proof.
  intros _ Hs. rewrite WriteMessage_spec. eexists. split.
  - unfold Sync. rewrite Hs. reflexivity.
  - repeat split.
Qed.

(** C2, as the code has it. A successful [WriteMessage] leaves what
    [HaveUID] answers unchanged for every id, the one just written
    included; the id is known to the database that a later [Open] of the
    file builds. The file before the call is a header followed by a log,
    and the stored record is shorter than 2^32 bytes. *)
Theorem WriteMessage_indexed_on_reopen now sf fh es db msgid data db' :
  header_ok fh -> Forall entry_ok es ->
  contents (fd db) = fh ++ log_bytes es ->
  entry_ok (EMessage (Z.lor FeatureCompressed FeatureHashed)
              (MessageRecord.mk msgid data)) ->
  WriteMessage msgid data db = (db', None) ->
  (forall i, HaveUID db' i = HaveUID db i) /\
  exists db2, Open now sf (contents (fd db')) = Ok db2 /\ HaveUID db2 msgid = true.
Proof.
  intros Hfh Hes Hc He. rewrite WriteMessage_spec. intros [= <- _].
  split; [reflexivity|].
  cbn [fd set_fd contents append_end]. rewrite Hc, <- app_assoc.
  rewrite <- log_bytes_single, <- log_bytes_app.
  rewrite (Open_log now sf fh _ Hfh).
  2:{ apply Forall_app. split; [exact Hes|]. apply Forall_cons. split; [exact He|constructor]. }
  eexists. split; [reflexivity|].
  apply (HaveUID_replay_message es _ (MessageRecord.mk msgid data)).
Qed.

(** C6. For an archive that is a header and a log, the labels [Open]
    gives an id are those of the last Labels record of the log with an
    entry for it, whatever earlier records said. *)
Theorem labels_last_writer_wins now sf fh es1 ft l es2 i ls :
  header_ok fh -> Forall entry_ok (es1 ++ ELabels ft l :: es2) ->
  record_labels l i = Some ls ->
  Forall (fun e => ~ mentions i e) es2 ->
  exists db,
    Open now sf (fh ++ log_bytes (es1 ++ ELabels ft l :: es2)) = Ok db /\
    Labels db i = bytesSliceToStrings ls.
Proof.
  intros Hfh Hes Hl Hun.
  rewrite (Open_log now sf fh _ Hfh Hes).
  eexists. split; [reflexivity|].
  unfold Labels. rewrite replay_app.
  change (replay (ELabels ft l :: es2) ?d)
    with (replay es2 (index_record (RLabels l) d)).
  rewrite (labels_replay_unmentioned es2 i _ Hun).
  rewrite labels_index_labels, Hl. reflexivity.
Qed.

Lemma nextRecord_header_only f th :
  pending f = th -> length th = recordHeaderLength ->
  0 < Header.Length (get_Header th) ->
  exists f', nextRecord AnyType f = (f', Err io_EOF).
Proof.
  intros Hp Hlen Hpos. unfold nextRecord. cbn [nextRecord_loop].
  unfold read_Header.
  rewrite (ReadFull_app f recordHeaderLength th [])
    by (rewrite ?app_nil_r; auto; cbv; lia).
  cbn [bindF negb andb Z.eqb AnyType].
  rewrite Read_nil.
  - eexists. reflexivity.
  - rewrite pending_set_offset, Hp, <- Hlen. apply drop_all.
  - lia.
Qed.

(** C5, as the code has it. When the file ends right after a record
    header that announces a payload (no byte of the payload was
    written), [Open] succeeds, and the maps it builds are those it
    builds for the archive without that header. *)
Theorem Open_header_without_payload now sf fh es th :
  header_ok fh -> Forall entry_ok es ->
  length th = recordHeaderLength ->
  0 < Header.Length (get_Header th) ->
  exists db db',
    Open now sf (fh ++ log_bytes es ++ th) = Ok db' /\
    Open now sf (fh ++ log_bytes es) = Ok db /\
    labels db' = labels db /\ haveMsgID db' = haveMsgID db /\
    labelsChanged db' = labelsChanged db.
Proof.
  intros Hfh Hes Hlen Hpos.
  rewrite (Open_log_tail now sf fh es th Hfh Hes).
  2:{ intros f Hp. exact (nextRecord_header_only f th Hp Hlen Hpos). }
  rewrite (Open_log now sf fh es Hfh Hes).
  do 2 eexists. split; [reflexivity|]. split; [reflexivity|].
  change (opened sf (fh ++ log_bytes es ++ th))
    with (set_fd (mkFile (fh ++ log_bytes es ++ th) fileHeaderLength sf)
            (opened sf (fh ++ log_bytes es))).
  rewrite replay_set_fd. repeat split.
Qed.

(** ** Tampering with a hashed record *)

Lemma decode_hashed_Ok ft data d :
  has_feature ft FeatureHashed = true ->
  decode ft data = Ok d ->
  (20 <= length data)%nat /\ hash d = take 20 data /\
  (if has_feature ft FeatureCompressed then gzip_ReadAll (drop 20 data) = Some d
   else d = drop 20 data).
Proof.
  intros Hh. unfold decode, decompress, bind. rewrite Hh.
  destruct (decide (length data < 20)%nat) as [|Hlen]; [discriminate|].
  destruct (has_feature ft FeatureCompressed).
  - destruct (gzip_ReadAll _) as [x|]; [|discriminate].
    destruct (decide _) as [E|]; [|discriminate].
    intros [= ->]. repeat split; [lia|exact E].
  - destruct (decide _) as [E|]; [|discriminate].
    intros [= <-]. repeat split; [lia|exact E].
Qed.

Lemma encode_hashed ft p :
  has_feature ft FeatureHashed = true ->
  exists body, encode ft p = hash p ++ body.
Proof.
  intros Hh. unfold encode. rewrite Hh. cbn [app].
  destruct (has_feature ft FeatureCompressed); eexists; reflexivity.
Qed.

(** What decoding a hashed and compressed record gives depends on the bytes
    after the prefix only through what the gzip reader makes of them. *)
Lemma decode_same_inflation ft dh body body' :
  length dh = 20%nat ->
  has_feature ft FeatureHashed = true ->
  has_feature ft FeatureCompressed = true ->
  gzip_ReadAll body' = gzip_ReadAll body ->
  decode ft (dh ++ body') = decode ft (dh ++ body).
Proof.
  intros Hl Hh Hc Hg. unfold decode, decompress, bind. rewrite Hh, Hc.
  rewrite !length_app, Hl.
  destruct (decide _) as [|_]; [lia|]. destruct (decide _) as [|_]; [lia|].
  rewrite !take_app_length', !drop_app_length' by auto.
  rewrite Hg. reflexivity.
Qed.

(** C4, as the code has it. Decoding a hashed record either panics or
    returns a payload whose hash is the stored 20-byte prefix, never a
    payload with another hash; and replacing any byte of the prefix of a
    record that [writeRecord] stored (one that decodes) by another byte
    makes decoding panic with "hash failure". *)
Theorem hashed_record_checked ft :
  has_feature ft FeatureHashed = true ->
  (forall data,
     (exists d, decode ft data = Ok d /\ hash d = take 20 data) \/
     (exists p, decode ft data = Panic p)) /\
  (forall p i b,
     length (hash p) = 20%nat -> decode ft (encode ft p) = Ok p ->
     (i < 20)%nat -> encode ft p !! i <> Some b ->
     decode ft (flip_byte i b (encode ft p)) = Panic PanicHashFailure).
Proof.
  intros Hh. split.
  - intros data. destruct (decode_cases ft data) as [(d&H)|(p&H)].
    + left. exists d. split; [exact H|]. apply (decode_hashed_Ok ft data d Hh H).
    + right. exists p. exact H.
  - intros p i b Hl.
    destruct (encode_hashed ft p Hh) as (body&->).
    intros Hdec Hi Hb. unfold flip_byte.
    rewrite insert_app_l by lia.
    rewrite lookup_app_l in Hb by lia.
    assert (Hne : <[i:=b]> (hash p) <> hash p).
    { intros E. apply Hb. rewrite <- E. apply list_lookup_insert_eq. lia. }
    apply (decode_hashed_Ok _ _ _ Hh) in Hdec as (_&_&Hbody).
    rewrite drop_app_length' in Hbody by (symmetry; exact Hl).
    unfold decode, bind. rewrite Hh.
    rewrite length_app, length_insert, Hl.
    destruct (decide _) as [|_]; [lia|].
    rewrite take_app_length', drop_app_length' by (rewrite length_insert; auto).
    destruct (has_feature ft FeatureCompressed).
    + unfold decompress. rewrite Hbody.
      destruct (decide _) as [E|_]; [|reflexivity]. congruence.
    + subst body. destruct (decide _) as [E|_]; [|reflexivity]. congruence.
Qed.

(** ** The scan window *)

Lemma adjust_step_sizes fetch w :
  w ∈ window_sizes -> adjust_step fetch w ∈ window_sizes.
Proof.
  unfold window_sizes. intros H.
  repeat (apply elem_of_cons in H as [->|H]); [..|inversion H];
    unfold adjust_step;
    destruct (fetch =? 0), (0 <? fetch); cbn; set_solver.
Qed.

Lemma window_sizes_bounds w : w ∈ window_sizes -> 100 <= w <= 3200.
Proof.
  unfold window_sizes. intros H.
  repeat (apply elem_of_cons in H as [->|H]); [..|inversion H]; lia.
Qed.

Lemma scan_round_step msgids s s' fetch :
  scan_round msgids s = Ok (s', fetch) ->
  step s' = adjust_step fetch (step s).
Proof.
  unfold scan_round.
  destruct (fold_left _ _ _) as [[[db o] n] p].
  destruct (WriteLabels db) as [db' [e|]]; [discriminate|].
  intros [= <- <-]. reflexivity.
Qed.

(** The counter [fetch] counts the values sent on the channel. *)
Lemma scan_msgids_fetch msgids : forall db o n p db' o' n' p',
  fold_left scan_msgid msgids (db, o, n, p) = (db', o', n', p') ->
  n' - n = Z.of_nat (length (queue o')) - Z.of_nat (length (queue o)).
Proof.
  induction msgids as [|m ms IH]; intros db o n p db' o' n' p'; cbn [fold_left].
  - intros [= <- <- <- <-]. lia.
  - unfold scan_msgid at 2.
    destruct (negb (HaveUID db _)); destruct (negb (sliceEquals _ _));
      intros H%IH; unfold send in H; cbn [queue] in H;
      rewrite ?length_app in H; cbn [length] in H; lia.
Qed.

Lemma scan_round_fetch msgids s s' fetch :
  scan_round msgids s = Ok (s', fetch) ->
  fetch = Z.of_nat (length (queue (out s'))) - Z.of_nat (length (queue (out s))).
Proof.
  unfold scan_round.
  destruct (fold_left _ _ _) as [[[db o] n] p] eqn:E.
  apply scan_msgids_fetch in E.
  destruct (WriteLabels db) as [db' [e|]]; [discriminate|].
  intros [= <- <-]. cbn [out]. lia.
Qed.

Lemma scan_reachable_sizes messages db p s :
  scan_reachable messages db p s -> step s ∈ window_sizes.
Proof.
  induction 1 as [|s msgids s' fetch _ IH _ Hr].
  - cbn. unfold window_sizes. set_solver.
  - rewrite (scan_round_step _ _ _ _ Hr). apply adjust_step_sizes, IH.
Qed.

(** The scan loop only passes through states that are reachable in the
    sense above; the state it ends in differs from one of them by the
    closing of the queue. *)
Lemma scan_loop_reachable search messages db p fuel : forall n s s',
  scan_reachable messages db p s ->
  scan_loop search fuel n messages s = Ok s' ->
  exists s0, scan_reachable messages db p s0 /\ step s' = step s0.
Proof.
  induction fuel as [|fuel IH]; intros n s s' Hs; cbn [scan_loop]; [discriminate|].
  destruct (Z.ltb_spec (begin s) messages) as [Hlt|_].
  - destruct (search n (begin s) _) as [msgids|e|q|]; cbn [bind]; try discriminate.
    destruct (scan_round msgids s) as [[s1 fetch]|e|q|] eqn:Hr;
      cbn [bind fst]; try discriminate.
    apply IH. exact (scan_turn _ _ _ s msgids s1 fetch Hs Hlt Hr).
  - intros [= <-]. exists s. split; [exact Hs|reflexivity].
Qed.

(** C7. The window starts at 100 and is between 100 and 3200 at the head
    of every turn of the scan loop and when the loop ends. In a turn that
    sent nothing to the fetch queue and began with a window below 3200 the
    window doubles; in a turn that sent something and began with a window
    above 100 it halves. *)
Theorem scan_window_adapts messages db p :
  step (scan_init messages db p) = 100 /\
  (forall s, scan_reachable messages db p s -> 100 <= step s <= 3200) /\
  (forall search fuel s',
     scan_loop search fuel 0 messages (scan_init messages db p) = Ok s' ->
     100 <= step s' <= 3200) /\
  (forall s msgids s' fetch,
     scan_reachable messages db p s ->
     scan_round msgids s = Ok (s', fetch) ->
     fetch = Z.of_nat (length (queue (out s'))) - Z.of_nat (length (queue (out s))) /\
     (fetch = 0 -> step s < 3200 -> step s' = 2 * step s) /\
     (0 < fetch -> 100 < step s -> step s' = step s / 2)).
Proof.
  split; [reflexivity|]. split; [|split].
  - intros s H. apply window_sizes_bounds, (scan_reachable_sizes _ _ _ _ H).
  - intros search fuel s' H.
    destruct (scan_loop_reachable search messages db p fuel 0 _ s'
                (scan_start messages db p) H) as (s0&Hs0&->).
    apply window_sizes_bounds, (scan_reachable_sizes _ _ _ _ Hs0).
  - intros s msgids s' fetch Hs Hr.
    split; [exact (scan_round_fetch _ _ _ _ Hr)|].
    rewrite (scan_round_step _ _ _ _ Hr).
    pose proof (window_sizes_bounds _ (scan_reachable_sizes _ _ _ _ Hs)) as Hb.
    unfold adjust_step, uint32. split.
    + intros -> Hlt. cbn [Z.eqb]. destruct (Z.ltb_spec (step s) 3200); [|lia].
      cbn [andb]. rewrite Z.mod_small by lia. lia.
    + intros Hf Hgt. destruct (Z.eqb_spec fetch 0); [lia|]. cbn [andb].
      destruct (Z.ltb_spec 0 fetch); [|lia].
      destruct (Z.ltb_spec 100 (step s)); [|lia]. reflexivity.
Qed.

(** ** The fetch worker *)

Lemma select_recv_never_breaks w w' :
  select_stmt recv_case w <> Completes w' Break.
Proof.
  unfold select_stmt. destruct (recv_case w) as [w1 [|]| | | |]; discriminate.
Qed.

Lemma worker_loop_never_completes fuel : forall w w' c,
  for_stmt fuel (select_stmt recv_case) w <> Completes w' c.
Proof.
  induction fuel as [|fuel IH]; intros w w' c; cbn [for_stmt]; [discriminate|].
  pose proof (select_recv_never_breaks w) as Hb.
  destruct (select_stmt recv_case w) as [w1 [|]| | | |]; try discriminate.
  - apply IH.
  - exfalso. exact (Hb w1 eq_refl).
Qed.

Lemma worker_loop_closed_empty fuel w :
  queue (msgids w) = [] -> closed (msgids w) = true ->
  for_stmt fuel (select_stmt recv_case) w = Running w.
Proof.
  intros Hq Hc. induction fuel as [|fuel IH]; [reflexivity|].
  cbn [for_stmt]. unfold select_stmt at 1, recv_case at 1.
  rewrite Hq, Hc. cbn [negb]. exact IH.
Qed.

(** A turn of the worker's loop leaves the counter of the wait group as it
    is. *)
Lemma worker_turn_keeps_wg w w' c :
  select_stmt recv_case w = Completes w' c -> wg w' = wg w.
Proof.
  unfold select_stmt, recv_case.
  destruct (queue (msgids w)) as [|msgid rest].
  - destruct (closed (msgids w)); cbn [negb]; [|discriminate].
    intros [= <- _]. reflexivity.
  - cbn [negb UID MsgID_ w_db].
    destruct (GetMail _) as [body|e|q|]; try discriminate.
    destruct (WriteMessage _ _ _) as [db [e|]]; [discriminate|].
    intros [= <- _]. reflexivity.
Qed.

(** C8, as the code has it. Once the queue is closed and empty the worker
    goes round its loop without end, whatever the number of turns: the
    receive yields [ok = false], the [break] leaves the [select] only,
    and the [for] starts over. On this or on any other state, a turn of the
    loop is followed by another turn and leaves the counter of the wait
    group as it is, and the worker never gets to [wg.Done()]; so a
    [wg.Wait()] that waits for a worker does not return. *)
Theorem fetchAndStore_never_done fuel w :
  queue (msgids w) = [] -> closed (msgids w) = true ->
  fetchAndStore fuel w = Running w /\
  (forall w0 w' c, select_stmt recv_case w0 = Completes w' c ->
     c = Normal /\ wg w' = wg w0) /\
  (forall fuel' w0 w' c, fetchAndStore fuel' w0 <> Completes w' c).
Proof.
  intros Hq Hc. split; [|split].
  - unfold fetchAndStore. rewrite (worker_loop_closed_empty fuel w Hq Hc). reflexivity.
  - intros w0 w' c H. split; [|exact (worker_turn_keeps_wg _ _ _ H)].
    destruct c; [reflexivity|]. exfalso. exact (select_recv_never_breaks _ _ H).
  - intros fuel' w0 w' c. unfold fetchAndStore.
    pose proof (worker_loop_never_completes fuel' w0) as H.
    destruct (for_stmt fuel' (select_stmt recv_case) w0); try discriminate.
    exfalso. exact (H _ _ eq_refl).
Qed.

(** ** Export *)

Lemma mbox_entry_set_fd f db rec : mbox_entry (set_fd f db) rec = mbox_entry db rec.
Proof. reflexivity. Qed.

Lemma ReadMessage_cases db :
  ReadMessage db =
    match nextRecord MessageRecordType (fd db) with
    | (f, Ok (RMessage rec)) => (set_fd f db, Ok rec)
    | (f, Ok (RLabels _)) => (set_fd f db, Panic PanicTypeAssertion)
    | (f, Err e) => (set_fd f db, Err e)
    | (f, Panic p) => (set_fd f db, Panic p)
    | (f, OutOfFuel) => (set_fd f db, OutOfFuel)
    end.
Proof.
  unfold ReadMessage.
  destruct (nextRecord MessageRecordType (fd db)) as [f [[m|l]|e|p|]]; reflexivity.
Qed.

Lemma mbox_loop_skip k db f' wr n :
  nextRecord MessageRecordType (fd db) = nextRecord MessageRecordType f' ->
  mbox_loop k db wr n = mbox_loop k (set_fd f' db) wr n.
Proof.
  intros H. destruct k as [|k]; [reflexivity|]. cbn [mbox_loop].
  rewrite !ReadMessage_cases. cbn [fd set_fd]. rewrite H.
  destruct (nextRecord MessageRecordType f') as [f [[m|l]|e|p|]]; reflexivity.
Qed.

Lemma messages_of_app es1 es2 :
  messages_of (es1 ++ es2) = messages_of es1 ++ messages_of es2.
Proof. unfold messages_of. apply flat_map_app. Qed.

Lemma length_messages_of es :
  (length (messages_of es) <= length (log_bytes es))%nat.
Proof.
  induction es as [|e es IH]; [reflexivity|].
  cbn [messages_of log_bytes flat_map]. rewrite !length_app.
  fold (messages_of es). fold (log_bytes es).
  pose proof (entry_bytes_length e). unfold recordHeaderLength in *.
  destruct e; cbn [length]; lia.
Qed.

(** [nextRecord(MessageRecordType)] with the cursor at a record of the
    log: anything but a Message record is passed over. *)
Lemma nextRecord_message_entry f e rest :
  entry_ok e -> pending f = entry_bytes e ++ rest ->
  let f' := Seek_cur (length (entry_bytes e)) f in
  nextRecord MessageRecordType f =
    match e with
    | EMessage _ m => (f', Ok (RMessage m))
    | _ => nextRecord MessageRecordType f'
    end.
Proof.
  intros (Ht&Hft&Hlen&Hdec&Hk) Hp f'. unfold nextRecord at 1.
  unfold entry_bytes in *.
  rewrite (nextRecord_loop_at _ MessageRecordType _ _ _ _ _ Ht Hft Hlen Hdec Hp).
  assert (Hfuel : nextRecord_loop (length (contents f)) MessageRecordType f'
                  = nextRecord MessageRecordType f').
  { symmetry. apply nextRecord_enough.
    unfold f'. rewrite pending_Seek_cur, Hp, length_drop, length_app.
    pose proof (length_pending f) as He. rewrite Hp, length_app in He.
    rewrite length_record_bytes in *. unfold recordHeaderLength in *. lia. }
  destruct e as [ft m|ft l|t ft data]; cbn [entry_type entry_data] in *.
  - cbn. rewrite Hk. reflexivity.
  - cbn. exact Hfuel.
  - destruct Hk as [Hm Hl].
    destruct (Z.eqb_spec t MessageRecordType) as [?|_]; [contradiction|].
    cbn. exact Hfuel.
Qed.

(** The loop of [mbox] over a log writes one entry for each Message
    record, in file order, and nothing for the other records. *)
Lemma mbox_loop_log es : forall db wr n k,
  Forall entry_ok es ->
  pending (fd db) = log_bytes es ->
  (length (messages_of es) < k)%nat ->
  mbox_loop k db wr n =
    Ok (set_fd (Seek_cur (length (log_bytes es)) (fd db)) db,
        wr ++ flat_map (mbox_entry db) (messages_of es),
        n + Z.of_nat (length (messages_of es))).
Proof.
  induction es as [|e es IH]; intros db wr n k Hok Hp Hk.
  - destruct k as [|k]; [cbn in Hk; lia|]. cbn [mbox_loop].
    rewrite ReadMessage_cases, (nextRecord_at_end _ _ Hp).
    destruct (decide _) as [_|N]; [|contradiction].
    cbn. unfold Seek_cur. rewrite Nat.add_0_r, set_offset_same, app_nil_r, Z.add_0_r.
    reflexivity.
  - apply Forall_cons in Hok as [He Hes].
    cbn [log_bytes flat_map] in *. fold (log_bytes es) in *.
    pose proof (nextRecord_message_entry _ _ _ He Hp) as Hn. cbn zeta in Hn.
    set (f' := Seek_cur (length (entry_bytes e)) (fd db)) in *.
    assert (Hp' : pending f' = log_bytes es).
    { unfold f'. rewrite pending_Seek_cur, Hp. apply drop_app_length. }
    rewrite length_app, <- Seek_cur_Seek_cur. fold f'.
    destruct e as [ft m|ft l|t ft data]; cbn [messages_of flat_map app] in *;
      fold (messages_of es) in *.
    + destruct k as [|k]; [lia|]. cbn [mbox_loop length] in *.
      rewrite ReadMessage_cases, Hn.
      rewrite (IH (set_fd f' db) _ _ k Hes Hp') by lia.
      cbn [fd set_fd]. rewrite <- app_assoc. do 2 f_equal. lia.
    + rewrite (mbox_loop_skip k db f' wr n Hn).
      rewrite (IH (set_fd f' db) _ _ k Hes Hp' Hk). reflexivity.
    + rewrite (mbox_loop_skip k db f' wr n Hn).
      rewrite (IH (set_fd f' db) _ _ k Hes Hp' Hk). reflexivity.
Qed.

(** [mbox] on a database just opened on a header and a log. *)
Lemma mbox_log now sf fh es db :
  header_ok fh -> Forall entry_ok es ->
  Open now sf (fh ++ log_bytes es) = Ok db ->
  exists db',
    mbox db = Ok (db', flat_map (mbox_entry db) (messages_of es),
                  Z.of_nat (length (messages_of es))).
Proof.
  intros Hfh Hes.
  rewrite (Open_log now sf fh es Hfh Hes).
  intros [= <-]. unfold mbox.
  assert (Hp : pending (fd (replay es (opened sf (fh ++ log_bytes es)))) = log_bytes es).
  { rewrite fd_replay. unfold pending; cbn. apply drop_app_length'. symmetry. apply Hfh. }
  rewrite (mbox_loop_log es _ [] 0 _ Hes Hp).
  - eexists. reflexivity.
  - rewrite fd_replay. cbn [fd opened contents]. rewrite length_app.
    pose proof (length_messages_of es). lia.
Qed.

Lemma mbox_entry_labels db db' rec :
  labels db = labels db' -> mbox_entry db rec = mbox_entry db' rec.
Proof. intros H. unfold mbox_entry, Labels. rewrite H. reflexivity. Qed.

Lemma replay_other_dropped es1 t ft data es2 db :
  replay (es1 ++ EOther t ft data :: es2) db = replay (es1 ++ es2) db.
Proof. rewrite !replay_app. reflexivity. Qed.

Lemma messages_of_other_dropped es1 t ft data es2 :
  messages_of (es1 ++ EOther t ft data :: es2) = messages_of (es1 ++ es2).
Proof. rewrite !messages_of_app. reflexivity. Qed.

(** C9, what the code does. A Delete record has no effect on what
    [Open] builds nor on what [mbox] writes: with the record in the log
    or without it, the set of known ids (and so [Size] and [HaveUID]) and
    the labels are the same, and [mbox] writes the same bytes, one entry
    for every Message record of the log, those the Delete record lists
    included. *)
Theorem delete_record_ignored now sf fh es1 ft data es2 :
  header_ok fh ->
  Forall entry_ok (es1 ++ EOther DeleteRecordType ft data :: es2) ->
  exists db db0 dbe dbe0 wr n,
    Open now sf (fh ++ log_bytes (es1 ++ EOther DeleteRecordType ft data :: es2))
      = Ok db /\
    Open now sf (fh ++ log_bytes (es1 ++ es2)) = Ok db0 /\
    haveMsgID db = haveMsgID db0 /\ labels db = labels db0 /\
    mbox db = Ok (dbe, wr, n) /\ mbox db0 = Ok (dbe0, wr, n) /\
    wr = flat_map (mbox_entry db0) (messages_of (es1 ++ es2)) /\
    n = Z.of_nat (length (messages_of (es1 ++ es2))).
Proof.
  intros Hfh Hes.
  assert (Hes0 : Forall entry_ok (es1 ++ es2)).
  { apply Forall_app in Hes as [H1 H2]. apply Forall_cons in H2 as [_ H2].
    apply Forall_app. split; assumption. }
  set (es := es1 ++ EOther DeleteRecordType ft data :: es2) in *.
  pose proof (Open_log now sf fh es Hfh Hes) as Ho.
  pose proof (Open_log now sf fh _ Hfh Hes0) as Ho0.
  destruct (mbox_log now sf fh es _ Hfh Hes Ho) as [dbe Hm].
  destruct (mbox_log now sf fh _ _ Hfh Hes0 Ho0) as [dbe0 Hm0].
  assert (Hmaps : haveMsgID (replay es (opened sf (fh ++ log_bytes es)))
                  = haveMsgID (replay (es1 ++ es2) (opened sf (fh ++ log_bytes (es1 ++ es2))))
                  /\ labels (replay es (opened sf (fh ++ log_bytes es)))
                  = labels (replay (es1 ++ es2) (opened sf (fh ++ log_bytes (es1 ++ es2))))).
  { unfold es. rewrite replay_other_dropped.
    change (opened sf (fh ++ log_bytes (es1 ++ EOther DeleteRecordType ft data :: es2)))
      with (set_fd (mkFile (fh ++ log_bytes (es1 ++ EOther DeleteRecordType ft data :: es2))
                      fileHeaderLength sf)
              (opened sf (fh ++ log_bytes (es1 ++ es2)))).
    rewrite replay_set_fd. split; reflexivity. }
  destruct Hmaps as [Hh Hl].
  do 6 eexists. split; [exact Ho|]. split; [exact Ho0|].
  split; [exact Hh|]. split; [exact Hl|].
  split; [|split; [exact Hm0|split; reflexivity]].
  rewrite Hm. unfold es. rewrite messages_of_other_dropped.
  do 2 f_equal. f_equal.
  apply flat_map_ext. intros rec. apply mbox_entry_labels, Hl.
Qed.


(** * Further properties of the code *)

(** ** Opening *)

Lemma header_ok_put_FileHeader h :
  FileHeader.Magic h = fileMagic -> header_ok (put_FileHeader h).
Proof.
  intros Hm. split; [apply length_put_FileHeader|].
  pose proof (magic_put_FileHeader h) as H. cbn [get_FileHeader FileHeader.Magic] in H.
  rewrite H; [exact Hm|]. rewrite Hm. cbv. split; congruence.
Qed.

(** X1. [Open] on a file without bytes writes the 40 bytes of a file header
    and returns a database that knows no message and no label, with the
    cursor after the header; the file it leaves is one that [Open] accepts
    again, with the same empty index. *)
Theorem Open_new_archive now sf :
  exists db,
    Open now sf [] = Ok db /\
    length (contents (fd db)) = fileHeaderLength /\
    offset (fd db) = fileHeaderLength /\
    Size db = 0%nat /\
    (forall i, HaveUID db i = false /\ Labels db i = []) /\
    (forall now' sf', exists db',
       Open now' sf' (contents (fd db)) = Ok db' /\
       haveMsgID db' = ∅ /\ labels db' = ∅ /\
       contents (fd db') = contents (fd db)).
Proof.
  rewrite Open_new. eexists. split; [reflexivity|].
  cbn [opened fd contents offset].
  split; [apply length_put_FileHeader|]. split; [reflexivity|].
  split; [reflexivity|]. split.
  - intros i. unfold HaveUID, Labels. cbn. rewrite !lookup_empty. split; reflexivity.
  - intros now' sf'.
    set (fh := put_FileHeader _).
    assert (Hfh : header_ok fh) by (apply header_ok_put_FileHeader; reflexivity).
    pose proof (Open_log now' sf' fh [] Hfh (List.Forall_nil _)) as H.
    cbn [log_bytes flat_map] in H. rewrite app_nil_r in H.
    rewrite H. eexists. split; [reflexivity|]. repeat split.
Qed.

(** X2. [Open] refuses a file that has bytes but not a file header: when
    the file is shorter than 40 bytes, or does not start with the magic
    number, the result is the error "Incorrect file format". *)
Theorem Open_rejects_other_files now sf disk :
  disk <> [] ->
  (length disk < fileHeaderLength)%nat \/ le_combine (take 4 disk) <> fileMagic ->
  Open now sf disk = Err ErrIncorrectFormat.
Proof.
  intros Hne Hbad. unfold Open.
  destruct (decide (length disk = 0%nat)) as [E|_].
  { destruct disk; [contradiction|discriminate]. }
  unfold ReadFull, pending. cbn [offset contents]. rewrite drop_0.
  destruct (decide (length disk = 0%nat)) as [E|_].
  { destruct disk; [contradiction|discriminate]. }
  destruct (decide (length disk < fileHeaderLength)%nat) as [Hs|Hl].
  - cbn [get_FileHeader FileHeader.zero FileHeader.Magic].
    destruct (decide _) as [E|_]; [cbv in E; discriminate|]. reflexivity.
  - destruct Hbad as [Hs|Hm]; [contradiction|].
    cbn [get_FileHeader FileHeader.Magic].
    rewrite take_take. change (4 `min` fileHeaderLength)%nat with 4%nat.
    destruct (decide _) as [E|_]; [contradiction|]. reflexivity.
Qed.

Lemma Open_run_Err db f e :
  nextRecord AnyType (fd db) = (f, Err e) -> e <> io_EOF -> Open_run db = Err e.
Proof.
  intros H Hne. rewrite Open_run_unfold, H. destruct (decide _); [contradiction|reflexivity].
Qed.

(** X3. When an archive ends in the middle of a record header (between 1
    and 7 bytes after the last whole record), [Open] fails with the error
    [io.ErrUnexpectedEOF]; it does not return the database of the records
    before. *)
Theorem Open_partial_record_header now sf fh es tail :
  header_ok fh -> Forall entry_ok es ->
  (0 < length tail < recordHeaderLength)%nat ->
  Open now sf (fh ++ log_bytes es ++ tail) = Err io_ErrUnexpectedEOF.
Proof.
  intros Hfh Hes Htail. rewrite (Open_existing _ _ _ _ Hfh).
  assert (Hp : pending (fd (opened sf (fh ++ log_bytes es ++ tail)))
               = log_bytes es ++ tail).
  { unfold pending; cbn. apply drop_app_length'. symmetry. apply Hfh. }
  rewrite (Open_run_log es _ tail Hes Hp).
  set (f1 := Seek_cur _ _).
  assert (Hp1 : pending f1 = tail).
  { unfold f1. rewrite pending_Seek_cur, Hp. apply drop_app_length. }
  rewrite (Open_run_Err _ (set_offset (offset f1 + length tail) f1) io_ErrUnexpectedEOF).
  - reflexivity.
  - rewrite fd_replay. cbn [fd set_fd].
    unfold nextRecord. cbn [nextRecord_loop]. unfold read_Header, ReadFull.
    rewrite Hp1.
    destruct (decide _) as [E|_]; [lia|].
    destruct (decide _) as [_|N]; [|lia]. reflexivity.
  - discriminate.
Qed.

Lemma haveMsgID_replay es : forall db i,
  haveMsgID (replay es db) !! i =
    if decide (i ∈ message_ids es) then Some true else haveMsgID db !! i.
Proof.
  unfold message_ids.
  induction es as [|e es IH] using rev_ind; intros db i.
  - cbn. destruct (decide _) as [H|_]; [inversion H|reflexivity].
  - rewrite replay_app, messages_of_app, map_app.
    unfold replay at 1. cbn [fold_left].
    destruct e as [ft m|ft l|t ft data]; cbn [replay_entry messages_of flat_map map app].
    + cbn [index_record haveMsgID].
      destruct (decide (MessageRecord.MessageID m = i)) as [<-|Hne].
      * rewrite lookup_insert_eq. destruct (decide _) as [_|N]; [reflexivity|].
        exfalso. apply N. apply elem_of_app. right. left.
      * rewrite lookup_insert_ne by exact Hne. rewrite IH.
        destruct (decide (i ∈ _)) as [H|H]; destruct (decide (i ∈ _ ++ _)) as [H'|H'];
          try reflexivity.
        -- exfalso. apply H'. apply elem_of_app. left. exact H.
        -- exfalso. apply elem_of_app in H' as [H'|H']; [contradiction|].
           apply list_elem_of_singleton in H'. congruence.
    + rewrite haveMsgID_index_labels, app_nil_r. apply IH.
    + rewrite app_nil_r. apply IH.
Qed.

(** X4. After [Open] of an archive made of a header and a log, [HaveUID]
    is true for exactly the ids that have a Message record in the log, and
    [Size] is the number of different such ids (an id with two Message
    records counts once); no label is marked as changed and the cursor is
    just after the file header. *)
Theorem Open_known_ids now sf fh es :
  header_ok fh -> Forall entry_ok es ->
  exists db,
    Open now sf (fh ++ log_bytes es) = Ok db /\
    (forall i, HaveUID db i = true <-> i ∈ message_ids es) /\
    Size db = size (list_to_set (message_ids es) : gset Z) /\
    labelsChanged db = ∅ /\
    fd db = mkFile (fh ++ log_bytes es) fileHeaderLength sf.
Proof.
  intros Hfh Hes. rewrite (Open_log now sf fh es Hfh Hes).
  eexists. split; [reflexivity|].
  set (db0 := opened sf (fh ++ log_bytes es)).
  assert (Hl : forall i, haveMsgID (replay es db0) !! i =
                 if decide (i ∈ message_ids es) then Some true else None).
  { intros i. rewrite haveMsgID_replay. destruct (decide _); reflexivity. }
  split; [|split; [|split]].
  - intros i. unfold HaveUID. rewrite Hl.
    destruct (decide _) as [H|H]; cbn; split; auto; discriminate.
  - unfold Size. rewrite <- size_dom. f_equal.
    apply set_eq. intros i. rewrite elem_of_dom, elem_of_list_to_set, Hl.
    destruct (decide _) as [H|H]; split.
    + intros _. exact H.
    + intros _. eauto.
    + intros [x Hx]. discriminate.
    + intros H'. contradiction.
  - rewrite labelsChanged_replay. reflexivity.
  - rewrite fd_replay. reflexivity.
Qed.

(** X5. After [Open], [Labels] of an id that no Labels record of the log
    mentions is the empty list, whether or not the id has a Message
    record. *)
Theorem Open_labels_default now sf fh es i :
  header_ok fh -> Forall entry_ok es ->
  Forall (fun e => ~ mentions i e) es ->
  exists db, Open now sf (fh ++ log_bytes es) = Ok db /\ Labels db i = [].
Proof.
  intros Hfh Hes Hun. rewrite (Open_log now sf fh es Hfh Hes).
  eexists. split; [reflexivity|].
  unfold Labels. rewrite (labels_replay_unmentioned es i _ Hun).
  cbn. rewrite lookup_empty. reflexivity.
Qed.


(** ** Reading *)

Lemma mbox_loop_ends k : forall db wr n,
  (length (pending (fd db)) < recordHeaderLength * k)%nat ->
  mbox_loop k db wr n <> OutOfFuel.
Proof.
  induction k as [|k IH]; intros db wr n Hk; [cbv in Hk; lia|].
  cbn [mbox_loop]. rewrite ReadMessage_cases.
  pose proof (nextRecord_total MessageRecordType (fd db)) as Ht.
  destruct (nextRecord MessageRecordType (fd db)) as [f r] eqn:En.
  destruct r as [[rec|l]|e|p|]; cbn [snd] in Ht.
  - apply IH. cbn [fd set_fd].
    apply nextRecord_loop_Ok in En. unfold recordHeaderLength in *. lia.
  - discriminate.
  - destruct (decide _); discriminate.
  - discriminate.
  - contradiction.
Qed.

(** X6. The loops of the package end on every file, whatever its bytes:
    [nextRecord], [Open] and [mbox] return a value, an error or a panic
    within as many turns as the file has bytes, because every turn
    consumes the 8 bytes of a record header. *)
Theorem archive_loops_end :
  (forall rt f, (nextRecord rt f).2 <> OutOfFuel) /\
  (forall now sf disk, Open now sf disk <> OutOfFuel) /\
  (forall db, (ReadMessage db).2 <> OutOfFuel) /\
  (forall db, mbox db <> OutOfFuel).
Proof.
  split; [exact nextRecord_total|]. split; [exact Open_total|]. split.
  - intros db. rewrite ReadMessage_cases.
    pose proof (nextRecord_total MessageRecordType (fd db)) as Ht.
    destruct (nextRecord MessageRecordType (fd db)) as [f [[rec|l]|e|p|]];
      cbn [snd] in *; try discriminate. contradiction.
  - intros db. unfold mbox. apply mbox_loop_ends.
    rewrite length_pending. unfold recordHeaderLength. lia.
Qed.

(** X7. [ReadMessage] only moves the cursor, and only forward: the bytes
    of the file and the three maps of the database are the same after the
    call, whatever it returns, and when it returns a record the cursor has
    advanced by at least the 8 bytes of a record header. *)
Theorem ReadMessage_read_only db :
  let db' := (ReadMessage db).1 in
  labels db' = labels db /\ labelsChanged db' = labelsChanged db /\
  haveMsgID db' = haveMsgID db /\
  forward (fd db) (fd db') /\
  (forall rec, (ReadMessage db).2 = Ok rec ->
     (offset (fd db) + recordHeaderLength <= offset (fd db'))%nat).
Proof.
  cbn zeta. rewrite ReadMessage_cases.
  pose proof (nextRecord_forward MessageRecordType (fd db)) as Hf.
  destruct (nextRecord MessageRecordType (fd db)) as [f r] eqn:En.
  cbn [fst] in Hf.
  assert (Hadv : forall rec, r = Ok rec ->
            (offset (fd db) + recordHeaderLength <= offset f)%nat).
  { intros rec ->. apply nextRecord_loop_Ok in En. destruct Hf as (Hc & _ & Ho).
    rewrite !length_pending, Hc in En. unfold recordHeaderLength in *. lia. }
  destruct r as [[rec|l]|e|p|]; cbn [fst snd bind];
    (split; [reflexivity|split; [reflexivity|split; [reflexivity|split; [exact Hf|]]]]);
    intros rec' Hr; try discriminate.
  cbn [fd set_fd]. apply (Hadv (RMessage rec)). reflexivity.
Qed.

(** X8. [ReadMessage] passes over a record of another type by its
    declared length, without reading its payload: whatever bytes follow the
    record header (a damaged payload, or fewer bytes than the header
    declares), the result is that of [ReadMessage] with the cursor moved
    on by 8 bytes plus the declared length. *)
Theorem ReadMessage_passes_over db t ft len rest :
  0 <= t < 2 ^ 16 -> 0 <= ft < 2 ^ 16 -> 0 <= len < 2 ^ 32 ->
  t <> MessageRecordType ->
  pending (fd db) = put_Header (Header.mk t ft len) ++ rest ->
  ReadMessage db =
    ReadMessage (set_fd (Seek_cur (recordHeaderLength + Z.to_nat len) (fd db)) db).
Proof.
  intros Ht Hft Hlen Hne Hp.
  assert (Hn : nextRecord MessageRecordType (fd db) =
               nextRecord MessageRecordType
                 (Seek_cur (recordHeaderLength + Z.to_nat len) (fd db))).
  { unfold nextRecord at 1. cbn [nextRecord_loop]. unfold read_Header.
    rewrite (ReadFull_app _ _ _ _ Hp (length_put_Header _)) by (cbv; lia).
    cbn [bindF]. rewrite get_put_Header by assumption.
    cbn [Header.Type_ Header.Length].
    replace (t =? MessageRecordType) with false by (symmetry; apply Z.eqb_neq; exact Hne).
    change (negb (MessageRecordType =? AnyType) && negb false) with true. cbv iota.
    fold (Seek_cur recordHeaderLength (fd db)). rewrite Seek_cur_Seek_cur.
    unfold nextRecord.
    set (f' := Seek_cur _ _).
    assert (Hl : (length (pending f') + recordHeaderLength <= length (contents (fd db)))%nat).
    { unfold f'. rewrite pending_Seek_cur, length_drop.
      pose proof (length_pending (fd db)) as Hq.
      pose proof (f_equal length Hp) as Hq'. rewrite length_app, length_put_Header in Hq'.
      unfold recordHeaderLength in *. lia. }
    apply nextRecord_loop_fuel; unfold recordHeaderLength in *; cbn [contents f' Seek_cur set_offset]; lia. }
  rewrite !ReadMessage_cases. cbn [fd set_fd]. rewrite <- Hn.
  destruct (nextRecord MessageRecordType (fd db)) as [f [[rec|l]|e|p|]]; reflexivity.
Qed.

(** ** Writing, then reading *)

Lemma pending_append_end bs f : pending (append_end bs f) = [].
Proof.
  unfold pending, append_end; cbn [offset contents].
  rewrite <- length_app. apply drop_all.
Qed.

Lemma mbox_at_end db : pending (fd db) = [] -> mbox db = Ok (db, [], 0).
Proof.
  intros Hp. unfold mbox. cbn [mbox_loop].
  rewrite ReadMessage_cases, (nextRecord_at_end _ _ Hp).
  destruct (decide _) as [_|N]; [|contradiction].
  destruct db; reflexivity.
Qed.

Lemma ReadMessage_at_end db : pending (fd db) = [] -> ReadMessage db = (db, Err io_EOF).
Proof.
  intros Hp. rewrite ReadMessage_cases, (nextRecord_at_end _ _ Hp).
  destruct db; reflexivity.
Qed.

(** X9. Writing moves the one cursor the database has to the end of the
    file: straight after [WriteMessage] or [WriteLabels], [ReadMessage]
    returns [io.EOF] and [mbox] writes nothing, whatever the file holds. *)
Theorem read_after_write_is_EOF msgid data db :
  let dbm := (WriteMessage msgid data db).1 in
  let dbl := (WriteLabels db).1 in
  ReadMessage dbm = (dbm, Err io_EOF) /\ mbox dbm = Ok (dbm, [], 0) /\
  ReadMessage dbl = (dbl, Err io_EOF) /\ mbox dbl = Ok (dbl, [], 0).
Proof.
  cbn zeta. rewrite WriteMessage_spec, WriteLabels_spec. cbn [fst].
  repeat split;
    first [apply ReadMessage_at_end | apply mbox_at_end];
    cbn [fd set_fd]; apply pending_append_end.
Qed.

(** X10. What [WriteMessage] appends is what [ReadMessage] returns: with
    the cursor put back where the record starts (the end of the file
    before the call), [ReadMessage] returns the message id and the body
    that were written, and leaves the cursor at the end of the file. *)
Theorem WriteMessage_read_back msgid data db :
  entry_ok (EMessage (Z.lor FeatureCompressed FeatureHashed)
              (MessageRecord.mk msgid data)) ->
  let db' := (WriteMessage msgid data db).1 in
  ReadMessage (set_fd (Seek_set (length (contents (fd db))) (fd db')) db') =
    (db', Ok (MessageRecord.mk msgid data)).
Proof.
  intros Hok. cbn zeta. rewrite WriteMessage_spec. cbn [fst fd set_fd].
  set (e := EMessage _ _) in *.
  rewrite ReadMessage_cases. cbn [fd set_fd].
  set (f := Seek_set _ _).
  assert (Hp : pending f = entry_bytes e ++ []).
  { unfold f, pending, Seek_set, append_end; cbn [contents offset set_offset].
    rewrite app_nil_r. apply drop_app_length. }
  rewrite (nextRecord_message_entry f e [] Hok Hp). unfold e at 1. cbv iota beta.
  unfold f, Seek_cur, Seek_set, append_end, set_offset, set_fd; cbn.
  reflexivity.
Qed.

Lemma mbox_pending_log es db :
  Forall entry_ok es -> pending (fd db) = log_bytes es ->
  mbox db =
    Ok (set_fd (Seek_cur (length (log_bytes es)) (fd db)) db,
        flat_map (mbox_entry db) (messages_of es),
        Z.of_nat (length (messages_of es))).
Proof.
  intros Hes Hp. unfold mbox.
  rewrite (mbox_loop_log es db [] 0 _ Hes Hp); [reflexivity|].
  pose proof (length_messages_of es) as Hm.
  pose proof (length_pending (fd db)) as Hq. rewrite Hp in Hq. lia.
Qed.

(** X11. [mbox] reads from where the cursor is and does not rewind. On a
    database just opened it writes one entry for every Message record of
    the log, in file order, and counts them; a second call then writes
    nothing, and after [Rewind] it writes the same bytes again. *)
Theorem mbox_does_not_rewind now sf fh es db :
  header_ok fh -> Forall entry_ok es ->
  Open now sf (fh ++ log_bytes es) = Ok db ->
  exists db1,
    mbox db = Ok (db1, flat_map (mbox_entry db) (messages_of es),
                  Z.of_nat (length (messages_of es))) /\
    mbox db1 = Ok (db1, [], 0) /\
    mbox (Rewind db1) = mbox db.
Proof.
  intros Hfh Hes. rewrite (Open_log now sf fh es Hfh Hes). intros [= <-].
  set (db := replay es _).
  assert (Hfd : fd db = mkFile (fh ++ log_bytes es) fileHeaderLength sf).
  { unfold db. rewrite fd_replay. reflexivity. }
  assert (Hp : pending (fd db) = log_bytes es).
  { rewrite Hfd. unfold pending; cbn. apply drop_app_length'. symmetry. apply Hfh. }
  rewrite (mbox_pending_log es db Hes Hp).
  eexists. split; [reflexivity|]. split.
  - apply mbox_at_end. cbn [fd set_fd]. rewrite pending_Seek_cur, Hp. apply drop_all.
  - replace (Rewind _) with db; [apply (mbox_pending_log es db Hes Hp)|].
    unfold Rewind, Seek_set, Seek_cur, set_offset. cbn [fd set_fd contents sync_fails].
    rewrite Hfd. cbn [contents sync_fails]. rewrite <- Hfd. destruct db; reflexivity.
Qed.

(** X12. A message stored with [WriteMessage] is exported: on a database
    opened on a header and a log, after [WriteMessage] and [Rewind],
    [mbox] writes the entries of the messages of the log followed by the
    entry of the new message, and counts one more. *)
Theorem written_message_exported now sf fh es db msgid data :
  header_ok fh -> Forall entry_ok es ->
  entry_ok (EMessage (Z.lor FeatureCompressed FeatureHashed)
              (MessageRecord.mk msgid data)) ->
  Open now sf (fh ++ log_bytes es) = Ok db ->
  exists db1,
    mbox (Rewind (WriteMessage msgid data db).1) =
      Ok (db1,
          flat_map (mbox_entry db) (messages_of es) ++
            mbox_entry db (MessageRecord.mk msgid data),
          Z.of_nat (length (messages_of es)) + 1).
Proof.
  intros Hfh Hes Hm. rewrite (Open_log now sf fh es Hfh Hes). intros [= <-].
  set (db := replay es _).
  assert (Hfd : fd db = mkFile (fh ++ log_bytes es) fileHeaderLength sf).
  { unfold db. rewrite fd_replay. reflexivity. }
  rewrite WriteMessage_spec. cbn [fst].
  set (e := EMessage _ _) in *.
  set (db' := Rewind _).
  assert (Hp : pending (fd db') = log_bytes (es ++ [e])).
  { unfold db', Rewind, pending, Seek_set, append_end; cbn [fd set_fd contents offset set_offset].
    rewrite Hfd. cbn [contents]. rewrite log_bytes_app, log_bytes_single, <- app_assoc.
    apply drop_app_length'. symmetry. apply Hfh. }
  assert (Hes' : Forall entry_ok (es ++ [e])).
  { apply Forall_app. split; [exact Hes|]. constructor; [exact Hm|constructor]. }
  rewrite (mbox_pending_log (es ++ [e]) db' Hes' Hp).
  eexists. f_equal. f_equal; [f_equal|].
  - rewrite messages_of_app, flat_map_app. cbn [messages_of flat_map e app].
    rewrite app_nil_r.
    assert (He : forall r, mbox_entry db' r = mbox_entry db r)
      by (intros r; apply mbox_entry_labels; reflexivity).
    rewrite He. apply (f_equal (fun x => x ++ _)).
    apply List.flat_map_ext. exact He.
  - rewrite messages_of_app, length_app. cbn. lia.
Qed.


(** ** Labels *)

Lemma bytesSliceToStrings_stringSliceToBytes ss :
  bytesSliceToStrings (stringSliceToBytes ss) = ss.
Proof.
  unfold bytesSliceToStrings, stringSliceToBytes. rewrite List.map_map.
  induction ss as [|x ss IH]; [reflexivity|]. cbn [List.map].
  rewrite string_of_list_byte_of_string. f_equal. exact IH.
Qed.

Lemma record_labels_keys (g : Z -> list (list byte)) ks i :
  record_labels (map (fun k => LabelsEntry.mk k (g k)) ks) i =
    if decide (i ∈ ks) then Some (g i) else None.
Proof.
  unfold record_labels.
  enough (H : forall acc,
    fold_left
      (fun acc lrec =>
         if decide (LabelsEntry.MessageID lrec = i) then Some (LabelsEntry.Labels lrec)
         else acc)
      (map (fun k => LabelsEntry.mk k (g k)) ks) acc =
    if decide (i ∈ ks) then Some (g i) else acc) by apply H.
  induction ks as [|k ks IH]; intros acc.
  - cbn. destruct (decide _) as [H|_]; [inversion H|reflexivity].
  - cbn [map fold_left LabelsEntry.MessageID LabelsEntry.Labels]. rewrite IH.
    destruct (decide (i ∈ ks)) as [H|H].
    + destruct (decide (i ∈ k :: ks)) as [_|N]; [reflexivity|].
      exfalso. apply N. right. exact H.
    + destruct (decide (k = i)) as [->|Hne].
      * destruct (decide (i ∈ i :: ks)) as [_|N]; [reflexivity|].
        exfalso. apply N. left.
      * destruct (decide (i ∈ k :: ks)) as [H'|_]; [|reflexivity].
        exfalso. apply elem_of_cons in H' as [->|H']; contradiction.
Qed.

(** [Open] on the file [WriteLabels] leaves. *)
Lemma WriteLabels_reopen now sf fh es db :
  header_ok fh -> Forall entry_ok es ->
  contents (fd db) = fh ++ log_bytes es ->
  entry_ok (ELabels FeatureCompressed (flushed_labels db)) ->
  Open now sf (contents (fd (WriteLabels db).1)) =
    Ok (replay (es ++ [ELabels FeatureCompressed (flushed_labels db)])
          (opened sf (fh ++ log_bytes
                              (es ++ [ELabels FeatureCompressed (flushed_labels db)])))).
Proof.
  intros Hfh Hes Hc Hl. rewrite WriteLabels_spec. cbn [fst fd contents append_end].
  rewrite Hc, <- app_assoc.
  change (map _ (range_keys (labelsChanged db))) with (flushed_labels db).
  rewrite <- log_bytes_single, <- log_bytes_app.
  apply (Open_log now sf fh _ Hfh).
  apply Forall_app. split; [exact Hes|]. constructor; [exact Hl|constructor].
Qed.

(** X13. Labels survive the file. On a database whose file is a header
    and a log, after [SetLabels] for an id, [Labels] gives the new labels
    at once, and after [WriteLabels] a later [Open] of the file gives the
    same labels for the id; the other ids marked as changed come back with
    the labels they had in memory. *)
Theorem SetLabels_persists now sf fh es db i l :
  header_ok fh -> Forall entry_ok es ->
  contents (fd db) = fh ++ log_bytes es ->
  let db1 := SetLabels i l db in
  entry_ok (ELabels FeatureCompressed (flushed_labels db1)) ->
  (forall k, k ∈ range_keys (labelsChanged db1) <-> is_Some (labelsChanged db1 !! k)) ->
  Labels db1 i = l /\
  exists db2,
    Open now sf (contents (fd (WriteLabels db1).1)) = Ok db2 /\
    Labels db2 i = l /\
    (forall k, is_Some (labelsChanged db !! k) -> Labels db2 k = Labels db1 k).
Proof.
  intros Hfh Hes Hc db1 Hl Hkeys.
  assert (Hi : Labels db1 i = l).
  { unfold Labels, db1, SetLabels. cbn [labels]. rewrite lookup_insert_eq. reflexivity. }
  split; [exact Hi|].
  rewrite (WriteLabels_reopen now sf fh es db1 Hfh Hes Hc Hl).
  eexists. split; [reflexivity|].
  assert (Hk : forall k, is_Some (labelsChanged db1 !! k) ->
            Labels (replay (es ++ [ELabels FeatureCompressed (flushed_labels db1)])
                      (opened sf (fh ++ log_bytes
                         (es ++ [ELabels FeatureCompressed (flushed_labels db1)])))) k
            = Labels db1 k).
  { intros k Hd. unfold Labels at 1. rewrite replay_app.
    change (replay [ELabels ?ft ?r] ?d) with (index_record (RLabels r) d).
    rewrite labels_index_labels. unfold flushed_labels.
    rewrite (record_labels_keys
               (fun k => stringSliceToBytes (default [] (labels db1 !! k)))).
    destruct (decide _) as [_|N]; [|exfalso; apply N, Hkeys, Hd].
    cbn [default]. apply bytesSliceToStrings_stringSliceToBytes. }
  split.
  - rewrite Hk; [exact Hi|]. unfold db1, SetLabels; cbn [labelsChanged].
    rewrite lookup_insert_eq. eauto.
  - intros k Hd. apply Hk. unfold db1, SetLabels; cbn [labelsChanged].
    destruct (decide (i = k)) as [->|Hne].
    + rewrite lookup_insert_eq. eauto.
    + rewrite lookup_insert_ne by exact Hne. exact Hd.
Qed.


(** ** The scan *)

Lemma sliceEquals_eq a : forall b, sliceEquals a b = true <-> a = b.
Proof.
  induction a as [|x a IH]; intros [|y b]; cbn [sliceEquals];
    try (split; [discriminate|discriminate]); [split; reflexivity|].
  destruct (decide (x = y)) as [->|Hne].
  - rewrite IH. split; [intros ->; reflexivity|intros [= ->]; reflexivity].
  - split; [discriminate|intros [= ? ?]; contradiction].
Qed.

Lemma unknown_of_ext db db' msgids :
  haveMsgID db = haveMsgID db' -> unknown_of db msgids = unknown_of db' msgids.
Proof.
  intros H. unfold unknown_of. f_equal.
  induction msgids as [|m ms IH]; [reflexivity|].
  rewrite !filter_cons, IH. unfold HaveUID. rewrite H. reflexivity.
Qed.

Lemma unknown_of_cons db m ms :
  unknown_of db (m :: ms) =
    (if HaveUID db (imap.MsgID_ m) then []
     else [mkMsgID (imap.UID m) (imap.MsgID_ m)]) ++ unknown_of db ms.
Proof.
  unfold unknown_of. rewrite filter_cons.
  destruct (HaveUID db (imap.MsgID_ m)); destruct (decide _) as [E|E];
    try discriminate; try reflexivity; exfalso; apply E; reflexivity.
Qed.

(** One listed message: what becomes of the database, the queue and the
    counter. *)
Lemma scan_msgid_spec db o n p m :
  let acc := scan_msgid (db, o, n, p) m in
  haveMsgID acc.1.1.1 = haveMsgID db /\ fd acc.1.1.1 = fd db /\
  queue acc.1.1.2 = queue o ++ unknown_of db [m] /\
  closed acc.1.1.2 = closed o /\
  acc.1.2 = n + Z.of_nat (length (unknown_of db [m])) /\
  (forall i, Labels acc.1.1.1 i =
     if decide (imap.MsgID_ m = i) then imap.Labels m else Labels db i) /\
  (imap.Labels m = Labels db (imap.MsgID_ m) ->
     labels acc.1.1.1 = labels db /\ labelsChanged acc.1.1.1 = labelsChanged db /\
     acc.2 = p).
Proof.
  cbn zeta. unfold scan_msgid. rewrite unknown_of_cons.
  change (unknown_of db []) with (@nil MsgID). rewrite app_nil_r.
  assert (Hset : forall i,
            Labels (SetLabels (imap.MsgID_ m) (imap.Labels m) db) i =
              if decide (imap.MsgID_ m = i) then imap.Labels m else Labels db i).
  { intros i. unfold Labels, SetLabels; cbn [labels].
    destruct (decide _) as [<-|Hne];
      [rewrite lookup_insert_eq|rewrite lookup_insert_ne by exact Hne]; reflexivity. }
  destruct (sliceEquals (imap.Labels m) (Labels db (imap.MsgID_ m))) eqn:Hs;
    destruct (HaveUID db (imap.MsgID_ m)) eqn:Hh; cbn [negb fst snd SetLabels haveMsgID fd
      send queue closed app length labels labelsChanged];
    rewrite ?app_nil_r, ?Z.add_0_r;
    (split; [reflexivity|split; [reflexivity|split; [reflexivity|split; [reflexivity|
       split; [reflexivity|split]]]]]).
  - intros i. destruct (decide _) as [<-|Hne];
      [apply sliceEquals_eq in Hs; symmetry; exact Hs|reflexivity].
  - intros _. repeat split; reflexivity.
  - intros i. destruct (decide _) as [<-|Hne];
      [apply sliceEquals_eq in Hs; symmetry; exact Hs|reflexivity].
  - intros _. repeat split; reflexivity.
  - exact Hset.
  - intros He. apply sliceEquals_eq in He. congruence.
  - exact Hset.
  - intros He. apply sliceEquals_eq in He. congruence.
Qed.

Lemma scan_fold_spec msgids : forall db o n p,
  let acc := fold_left scan_msgid msgids (db, o, n, p) in
  haveMsgID acc.1.1.1 = haveMsgID db /\ fd acc.1.1.1 = fd db /\
  queue acc.1.1.2 = queue o ++ unknown_of db msgids /\
  closed acc.1.1.2 = closed o /\
  acc.1.2 = n + Z.of_nat (length (unknown_of db msgids)) /\
  (forall i, Forall (fun m => imap.MsgID_ m <> i) msgids ->
     Labels acc.1.1.1 i = Labels db i) /\
  (Forall (fun m => imap.Labels m = Labels db (imap.MsgID_ m)) msgids ->
     labels acc.1.1.1 = labels db /\ labelsChanged acc.1.1.1 = labelsChanged db /\
     acc.2 = p).
Proof.
  induction msgids as [|m ms IH]; intros db o n p; cbn zeta.
  - cbn. rewrite app_nil_r, Z.add_0_r. repeat split; reflexivity.
  - cbn [fold_left].
    pose proof (scan_msgid_spec db o n p m) as Hm. cbn zeta in Hm.
    destruct (scan_msgid (db, o, n, p) m) as [[[db1 o1] n1] p1]. cbn [fst snd] in Hm.
    destruct Hm as (Hh & Hf & Hq & Hc & Hn & Hl & Hsame).
    specialize (IH db1 o1 n1 p1). cbn zeta in IH.
    destruct IH as (Hh' & Hf' & Hq' & Hc' & Hn' & Hl' & Hsame').
    rewrite (unknown_of_cons db m ms).
    rewrite (unknown_of_ext db1 db ms Hh) in Hq', Hn'.
    rewrite unknown_of_cons in Hq, Hn.
    change (unknown_of db []) with (@nil MsgID) in Hq, Hn. rewrite app_nil_r in Hq, Hn.
    split; [congruence|]. split; [congruence|].
    split; [rewrite Hq', Hq, <- app_assoc; reflexivity|].
    split; [congruence|].
    split; [rewrite Hn', Hn, length_app; lia|]. split.
    + intros i Hi. apply Forall_cons in Hi as [Hmi Hi].
      rewrite (Hl' i Hi), Hl. destruct (decide _); [contradiction|reflexivity].
    + intros Hall. apply Forall_cons in Hall as [Hm Hall].
      destruct (Hsame Hm) as (E1 & E2 & E3).
      destruct Hsame' as (E1' & E2' & E3').
      * eapply Forall_impl; [exact Hall|]. intros x Hx. cbn beta in Hx.
        unfold Labels in *. rewrite E1. exact Hx.
      * repeat split; congruence.
Qed.

Lemma scan_round_inv msgids s s' fetch :
  scan_round msgids s = Ok (s', fetch) ->
  exists db o p,
    fold_left scan_msgid msgids
      (scan_db s, out s,
       0, mkProgress (toScan (progress s))
            (scanned (progress s) + Z.of_nat (length msgids))
            (fetched (progress s)) (progress_labels (progress s))) = (db, o, fetch, p) /\
    s' = mkScan (uint32 (begin s + step s)) (adjust_step fetch (step s))
           (WriteLabels db).1 o p.
Proof.
  unfold scan_round.
  destruct (fold_left scan_msgid msgids _) as [[[db o] n] p].
  destruct (WriteLabels db) as [db' [e|]] eqn:Hw; [discriminate|].
  intros [= <- <-]. exists db, o, p. rewrite Hw. split; reflexivity.
Qed.

(** X14. A round of the scan sends to the fetch queue exactly the listed
    messages whose id the database does not know when the round begins,
    in the order of the listing (a message listed twice is sent twice);
    [fetch] is their number, the set of known ids is not changed by the
    round, [begin] moves on by the window and [progress.scanned] grows by
    the length of the listing. *)
Theorem scan_round_queues_unknown msgids s s' fetch :
  scan_round msgids s = Ok (s', fetch) ->
  queue (out s') = queue (out s) ++ unknown_of (scan_db s) msgids /\
  fetch = Z.of_nat (length (unknown_of (scan_db s) msgids)) /\
  haveMsgID (scan_db s') = haveMsgID (scan_db s) /\
  begin s' = uint32 (begin s + step s) /\
  scanned (progress s') =
    scanned (progress s) + Z.of_nat (length msgids).
Proof.
  intros Hr.
  destruct (scan_round_inv _ _ _ _ Hr) as (db & o & p & Hfold & ->).
  pose proof (scan_fold_spec msgids (scan_db s) (out s) 0
                (mkProgress (toScan (progress s))
                   (scanned (progress s) + Z.of_nat (length msgids))
                   (fetched (progress s)) (progress_labels (progress s)))) as H.
  cbn zeta in H. rewrite Hfold in H. cbn [fst snd] in H.
  destruct H as (Hh & Hf & Hq & Hc & Hn & Hl & Hsame).
  cbn [out scan_db begin progress]. rewrite WriteLabels_spec. cbn [fst haveMsgID].
  split; [exact Hq|]. split; [lia|]. split; [exact Hh|]. split; [reflexivity|].
  clear -Hfold.
  enough (G : forall ms acc, scanned (fold_left scan_msgid ms acc).2 = scanned acc.2).
  { pose proof (G msgids
                  (scan_db s, out s, 0,
                   mkProgress (toScan (progress s))
                     (scanned (progress s) + Z.of_nat (length msgids))
                     (fetched (progress s)) (progress_labels (progress s)))) as G'.
    rewrite Hfold in G'. exact G'. }
  induction ms as [|m ms IH]; intros acc; [reflexivity|].
  cbn [fold_left]. rewrite IH. destruct acc as [[[d c] k] q]. unfold scan_msgid.
  destruct (negb (HaveUID _ _)); destruct (negb (sliceEquals _ _)); reflexivity.
Qed.


(** X15. After a round of the scan the database has, for every listed
    message, the labels of its last listing, and the labels of the ids
    that were not listed are as before; nothing is left marked as changed.
    When every listed message already has the labels the database holds
    for it, the round sets no label and counts none. *)
Theorem scan_round_labels msgids s s' fetch :
  scan_round msgids s = Ok (s', fetch) ->
  labelsChanged (scan_db s') = ∅ /\
  (forall ms1 m ms2, msgids = ms1 ++ m :: ms2 ->
     Forall (fun m' => imap.MsgID_ m' <> imap.MsgID_ m) ms2 ->
     Labels (scan_db s') (imap.MsgID_ m) = imap.Labels m) /\
  (forall i, Forall (fun m => imap.MsgID_ m <> i) msgids ->
     Labels (scan_db s') i = Labels (scan_db s) i) /\
  (Forall (fun m => imap.Labels m = Labels (scan_db s) (imap.MsgID_ m)) msgids ->
     labels (scan_db s') = labels (scan_db s) /\
     progress_labels (progress s') = progress_labels (progress s)).
Proof.
  intros Hr.
  destruct (scan_round_inv _ _ _ _ Hr) as (db & o & p & Hfold & ->).
  cbn [scan_db progress]. rewrite WriteLabels_spec. cbn [fst labelsChanged].
  split; [reflexivity|].
  assert (HL : forall d i, Labels (mkDB (labels db) ∅ (haveMsgID db) d) i = Labels db i)
    by reflexivity.
  split; [|split].
  - intros ms1 m ms2 -> Hlast. rewrite HL.
    rewrite fold_left_app in Hfold. cbn [fold_left] in Hfold.
    destruct (fold_left scan_msgid ms1 _) as [[[db1 o1] n1] p1].
    pose proof (scan_msgid_spec db1 o1 n1 p1 m) as Hm. cbn zeta in Hm.
    destruct (scan_msgid (db1, o1, n1, p1) m) as [[[db2 o2] n2] p2]. cbn [fst snd] in Hm.
    destruct Hm as (_ & _ & _ & _ & _ & Hl & _).
    pose proof (scan_fold_spec ms2 db2 o2 n2 p2) as H2. cbn zeta in H2.
    rewrite Hfold in H2. cbn [fst snd] in H2.
    destruct H2 as (_ & _ & _ & _ & _ & Hl2 & _).
    rewrite (Hl2 _ Hlast), Hl. destruct (decide _); [reflexivity|contradiction].
  - intros i Hi. rewrite HL.
    pose proof (scan_fold_spec msgids (scan_db s) (out s) 0
                  (mkProgress (toScan (progress s))
                     (scanned (progress s) + Z.of_nat (length msgids))
                     (fetched (progress s)) (progress_labels (progress s)))) as H.
    cbn zeta in H. rewrite Hfold in H. cbn [fst snd] in H.
    destruct H as (_ & _ & _ & _ & _ & Hl & _). exact (Hl i Hi).
  - intros Hall. cbn [labels].
    pose proof (scan_fold_spec msgids (scan_db s) (out s) 0
                  (mkProgress (toScan (progress s))
                     (scanned (progress s) + Z.of_nat (length msgids))
                     (fetched (progress s)) (progress_labels (progress s)))) as H.
    cbn zeta in H. rewrite Hfold in H. cbn [fst snd] in H.
    destruct H as (_ & _ & _ & _ & _ & _ & Hsame).
    destruct (Hsame Hall) as (E1 & _ & E3). split; [exact E1|]. rewrite E3. reflexivity.
Qed.

Lemma scan_loop_closes search messages fuel : forall n s s',
  scan_loop search fuel n messages s = Ok s' -> closed (out s') = true.
Proof.
  induction fuel as [|fuel IH]; intros n s s'; cbn [scan_loop]; [discriminate|].
  destruct (begin s <? messages).
  - destruct (search n (begin s) _) as [msgids|e|q|]; cbn [bind]; try discriminate.
    destruct (scan_round msgids s) as [[s1 fetch]|e|q|]; cbn [bind fst]; try discriminate.
    apply IH.
  - intros [= <-]. reflexivity.
Qed.

Lemma scan_loop_bound search messages :
  (forall n b e, search n b e <> OutOfFuel) ->
  messages <= 2 ^ 32 - 3200 ->
  forall fuel n s,
    step s ∈ window_sizes -> 1 <= begin s ->
    messages - begin s <= 100 * Z.of_nat fuel ->
    scan_loop search (S fuel) n messages s <> OutOfFuel.
Proof.
  intros Hsearch Hm. induction fuel as [|fuel IH]; intros n s Hstep Hb Hd.
  - cbn [scan_loop]. destruct (Z.ltb_spec (begin s) messages) as [Hlt|_]; [lia|discriminate].
  - cbn [scan_loop]. fold (scan_loop search (S fuel)).
    destruct (Z.ltb_spec (begin s) messages) as [Hlt|_]; [|discriminate].
    specialize (Hsearch n (begin s) (uint32 (begin s + step s - 1))).
    destruct (search n (begin s) _) as [msgids|e|q|]; cbn [bind]; try discriminate;
      [|contradiction].
    destruct (scan_round msgids s) as [[s1 fetch]|e|q|] eqn:Hr; cbn [bind fst];
      try discriminate.
    + pose proof (window_sizes_bounds _ Hstep) as Hw.
      destruct (scan_round_inv _ _ _ _ Hr) as (db & o & p & _ & ->).
      apply IH; cbn [step begin].
      * apply adjust_step_sizes. exact Hstep.
      * unfold uint32. rewrite Z.mod_small by lia. lia.
      * unfold uint32. rewrite Z.mod_small by lia. lia.
    + unfold scan_round in Hr.
      destruct (fold_left scan_msgid msgids _) as [[[db o] k] p].
      destruct (WriteLabels db) as [db' [e|]]; discriminate.
Qed.

(** X16. The scan ends. For a mailbox of at most 2^32 - 3200 messages and
    searches that answer, the loop of [findNewUIDs] runs at most
    [(messages - 1) / 100] turns, rounded up, before it stops (or a
    failure stops it), and when it stops normally the queue is closed.
    With one message or none the loop body is never run: nothing is
    searched or sent, and the queue is closed at once. *)
Theorem scan_loop_ends search messages db p fuel :
  (forall n b e, search n b e <> OutOfFuel) ->
  messages <= 2 ^ 32 - 3200 ->
  messages - 1 <= 100 * Z.of_nat fuel ->
  scan_loop search (S fuel) 0 messages (scan_init messages db p) <> OutOfFuel /\
  (forall s', scan_loop search (S fuel) 0 messages (scan_init messages db p) = Ok s' ->
     closed (out s') = true) /\
  (messages <= 1 ->
   exists s', scan_loop search (S fuel) 0 messages (scan_init messages db p) = Ok s' /\
     queue (out s') = [] /\ scan_db s' = db).
Proof.
  intros Hsearch Hm Hd. split; [|split].
  - apply (scan_loop_bound search messages Hsearch Hm); cbn [scan_init step begin].
    + left.
    + lia.
    + lia.
  - intros s'. apply scan_loop_closes.
  - intros H1. cbn [scan_loop scan_init begin].
    destruct (Z.ltb_spec 1 messages) as [Hlt|_]; [lia|].
    eexists. split; [reflexivity|]. split; reflexivity.
Qed.

(** ** The worker *)

Lemma worker_turn_stores w m rest body :
  queue (msgids w) = m :: rest ->
  GetMail (UID m) = Ok body ->
  sync_fails (fd (w_db w)) = false ->
  select_stmt recv_case w =
    Completes
      (mkWorld
         (set_fd (append_end
                    (entry_bytes (EMessage (Z.lor FeatureCompressed FeatureHashed)
                                    (MessageRecord.mk (MsgID_ m) body)))
                    (fd (w_db w))) (w_db w))
         (mkChan rest (closed (msgids w)))
         (mkProgress (toScan (w_progress w)) (scanned (w_progress w))
                     (fetched (w_progress w) + 1) (progress_labels (w_progress w)))
         (wg w))
      Normal.
Proof.
  intros Hq Hg Hs. unfold select_stmt, recv_case. rewrite Hq. cbn [negb w_db].
  rewrite Hg, WriteMessage_spec. unfold Sync. rewrite Hs. reflexivity.
Qed.

(** X17. A worker takes the queue in order. With the queue open, every
    fetch answering and every [Sync] succeeding, [fetchAndStore] appends
    one hashed and compressed Message record for each queued message, in
    queue order, counts each in [progress.fetched], and then waits on the
    empty queue. It does not add the ids to the set of known ids, and it
    leaves the wait group alone. *)
Theorem worker_stores_queue q : forall w bodies fuel,
  queue (msgids w) = q -> closed (msgids w) = false ->
  sync_fails (fd (w_db w)) = false ->
  Forall2 (fun m body => GetMail (UID m) = Ok body) q bodies ->
  (length q < fuel)%nat ->
  exists w',
    fetchAndStore fuel w = Blocked w' /\
    contents (fd (w_db w')) =
      contents (fd (w_db w)) ++
      log_bytes (zip_with (fun m body =>
                             EMessage (Z.lor FeatureCompressed FeatureHashed)
                               (MessageRecord.mk (MsgID_ m) body)) q bodies) /\
    fetched (w_progress w') = fetched (w_progress w) + Z.of_nat (length q) /\
    queue (msgids w') = [] /\
    haveMsgID (w_db w') = haveMsgID (w_db w) /\
    wg w' = wg w.
Proof.
  unfold fetchAndStore.
  induction q as [|m q IH]; intros w bodies fuel Hq Hc Hs Hb Hf.
  - destruct fuel as [|fuel]; [cbn in Hf; lia|].
    cbn [for_stmt]. unfold select_stmt, recv_case. rewrite Hq, Hc.
    exists w. apply Forall2_nil_inv_l in Hb as ->.
    cbn. rewrite app_nil_r, Z.add_0_r. repeat split; try reflexivity. exact Hq.
  - destruct fuel as [|fuel]; [cbn in Hf; lia|].
    apply Forall2_cons_inv_l in Hb as (body & bodies' & Hg & Hb & ->).
    cbn [for_stmt]. rewrite (worker_turn_stores w m q body Hq Hg Hs).
    set (w1 := mkWorld _ _ _ _).
    destruct (IH w1 bodies' fuel) as (w' & Hrun & Hcont & Hfetched & Hq' & Hh & Hwg).
    + reflexivity.
    + exact Hc.
    + exact Hs.
    + exact Hb.
    + cbn [length] in Hf. lia.
    + exists w'. split; [exact Hrun|].
      split; [|split; [|split; [exact Hq'|split; [exact Hh|exact Hwg]]]].
      * rewrite Hcont. unfold w1. cbn [w_db fd set_fd contents append_end zip_with log_bytes flat_map].
        rewrite <- app_assoc. reflexivity.
      * rewrite Hfetched. unfold w1. cbn [w_progress fetched length]. lia.
Qed.

(** ** The first version of the payload codec *)

(** X18. The two versions of the package store a payload in the same
    bytes and accept the same bytes: [compressedHashed] builds what
    [writeRecord] builds for a hashed and compressed record, and
    [checkDecompress] returns, or panics, exactly where the decoding in
    [nextRecord] does. They part only on a hash that does not match,
    where the first version ends the program by [log.Fatalf] and the
    second panics. *)
Theorem codec_versions_agree bs :
  let ft := Z.lor FeatureCompressed FeatureHashed in
  compressedHashed bs = encode ft bs /\
  match checkDecompress bs with
  | Checked data => decode ft bs = Ok data
  | CheckPanics p => decode ft bs = Panic p /\ p <> PanicHashFailure
  | CheckFatal => decode ft bs = Panic PanicHashFailure
  end.
Proof.
  cbn zeta. split; [reflexivity|].
  unfold checkDecompress, decode.
  change (has_feature (Z.lor FeatureCompressed FeatureHashed) FeatureHashed) with true.
  change (has_feature (Z.lor FeatureCompressed FeatureHashed) FeatureCompressed) with true.
  cbv iota. destruct (decide (length bs < 20)%nat) as [Hs|Hl].
  - split; [reflexivity|discriminate].
  - cbn [bind]. unfold decompress.
    destruct (gzip_ReadAll (drop 20 bs)) as [data|]; cbn [bind].
    + unfold hash. destruct (decide _); reflexivity.
    + split; [reflexivity|discriminate].
Qed.

(** ** The lines of an exported message *)

Lemma from_bytes :
  list_byte_of_string "From "%string = [Byte.x46; Byte.x72; Byte.x6f; Byte.x6d; Byte.x20].
Proof. vm_compute. reflexivity. Qed.

Lemma esc_bytes : list_byte_of_string ">"%string = [Byte.x3e].
Proof. vm_compute. reflexivity. Qed.

Lemma esc_from_bytes :
  list_byte_of_string ">From "%string =
    [Byte.x3e; Byte.x46; Byte.x72; Byte.x6f; Byte.x6d; Byte.x20].
Proof. vm_compute. reflexivity. Qed.

(** X19. In what [mbox] writes for a message, the body comes as the lines
    of the scanner, each ended by a newline, and none of the lines written
    begins with "From ": such a line gets a ">" in front. The escaping
    cannot be undone: a body line ">From ..." is written as it is, which
    is also what the line "From ..." is written as. *)
Theorem mbox_escapes_From db rec :
  (exists hdrs,
     mbox_entry db rec =
       list_byte_of_string "From MAILER-DAEMON Thu Jan  1 01:00:00 1970"%string ++
       [Byte.x0a] ++ hdrs ++
       flat_map escape_line (Scanner_lines (MessageRecord.Data rec)) ++ [Byte.x0a]) /\
  (forall line, HasPrefix (escape_line line) (list_byte_of_string "From "%string) = false) /\
  (forall line,
     escape_line (list_byte_of_string ">From "%string ++ line) =
     escape_line (list_byte_of_string "From "%string ++ line)).
Proof.
  split; [|split].
  - unfold mbox_entry, escape_line. cbn zeta.
    exists ((if decide (0 < length (Labels db (MessageRecord.MessageID rec)))%nat
             then list_byte_of_string
                    ("X-Gmail-Labels: " ++
                     Join (Labels db (MessageRecord.MessageID rec)) ", ")%string ++
                  [Byte.x0a]
             else []) ++
            list_byte_of_string
              ("X-Gmail-MsgID: " ++ FormatInt (MessageRecord.MessageID rec))%string ++
            [Byte.x0a]).
    rewrite <- !app_assoc. reflexivity.
  - intros line. unfold escape_line, HasPrefix. rewrite from_bytes, esc_bytes.
    cbn [length]. apply bool_decide_eq_false.
    destruct (bool_decide (take 5 line = _)) eqn:Hp.
    + cbn [app firstn]. discriminate.
    + apply bool_decide_eq_false in Hp. cbn [app]. intros H. apply Hp.
      destruct line as [|a [|b [|c [|d [|e line]]]]]; cbn [app firstn] in H |- *;
        try discriminate H. exact H.
  - intros line. unfold escape_line, HasPrefix.
    rewrite from_bytes, esc_bytes, esc_from_bytes.
    cbn [length app firstn].
    rewrite bool_decide_eq_false_2 by discriminate.
    rewrite bool_decide_eq_true_2 by reflexivity.
    reflexivity.
Qed.


(** ** What is never rewritten *)

Lemma Open_loop_contents k : forall db db',
  Open_loop k db = Ok db' -> contents (fd db') = contents (fd db).
Proof.
  induction k as [|k IH]; intros db db'; cbn [Open_loop]; [discriminate|].
  pose proof (nextRecord_forward AnyType (fd db)) as Hf.
  destruct (nextRecord AnyType (fd db)) as [f [rec|e|p|]]; cbn [fst] in Hf;
    try discriminate.
  - intros H. apply IH in H. rewrite H, fd_index_record. apply Hf.
  - destruct (decide _); [|discriminate]. intros [= <-]. apply Hf.
Qed.

(** X20. The archive is append-only. [Open] leaves the bytes of a file
    that has some as they are; [WriteMessage], [WriteLabels], a round of
    the scan and a turn of a worker keep every byte the file had, the
    file header included, and add theirs after them; [ReadMessage] and
    [SetLabels] leave the file as it is. *)
Theorem archive_append_only :
  (forall now sf disk db,
     disk <> [] -> Open now sf disk = Ok db -> contents (fd db) = disk) /\
  (forall msgid data db,
     contents (fd db) `prefix_of` contents (fd (WriteMessage msgid data db).1)) /\
  (forall db, contents (fd db) `prefix_of` contents (fd (WriteLabels db).1)) /\
  (forall db, contents (fd (ReadMessage db).1) = contents (fd db)) /\
  (forall msgid lbls db, fd (SetLabels msgid lbls db) = fd db) /\
  (forall msgids s s' fetch,
     scan_round msgids s = Ok (s', fetch) ->
     contents (fd (scan_db s)) `prefix_of` contents (fd (scan_db s'))) /\
  (forall w w' c,
     select_stmt recv_case w = Completes w' c ->
     contents (fd (w_db w)) `prefix_of` contents (fd (w_db w'))).
Proof.
  split; [|split; [|split; [|split; [|split; [|split]]]]].
  - intros now sf disk db Hne. unfold Open.
    destruct (decide (length disk = 0%nat)) as [E|_].
    { destruct disk; [contradiction|discriminate]. }
    unfold ReadFull.
    destruct (decide _); [|destruct (decide _)];
      (destruct (decide (FileHeader.Magic _ = fileMagic)); cbn [bind]; [|discriminate]);
      (destruct (Open_loop _ _) as [d| | |] eqn:Hl; cbn [bind]; try discriminate;
       intros [= <-]; apply Open_loop_contents in Hl; exact Hl).
  - intros msgid data db. rewrite WriteMessage_spec. cbn. eexists. reflexivity.
  - intros db. rewrite WriteLabels_spec. cbn. eexists. reflexivity.
  - intros db. rewrite ReadMessage_cases.
    pose proof (nextRecord_forward MessageRecordType (fd db)) as Hf.
    destruct (nextRecord MessageRecordType (fd db)) as [f [[rec|l]|e|p|]];
      cbn [fst fd set_fd] in *; apply Hf.
  - reflexivity.
  - intros msgids s s' fetch Hr.
    destruct (scan_round_inv _ _ _ _ Hr) as (db & o & p & Hfold & ->).
    pose proof (scan_fold_spec msgids (scan_db s) (out s) 0
                  (mkProgress (toScan (progress s))
                     (scanned (progress s) + Z.of_nat (length msgids))
                     (fetched (progress s)) (progress_labels (progress s)))) as H.
    cbn zeta in H. rewrite Hfold in H. cbn [fst snd] in H.
    destruct H as (_ & Hf & _).
    cbn [scan_db]. rewrite WriteLabels_spec. cbn [fst fd contents append_end].
    rewrite Hf. eexists. reflexivity.
  - intros w w' c. unfold select_stmt, recv_case.
    destruct (queue (msgids w)) as [|m rest].
    + destruct (closed (msgids w)); cbn [negb]; [|discriminate].
      intros [= <- _]. reflexivity.
    + cbn [negb w_db].
      destruct (GetMail _) as [body|e|q|]; try discriminate.
      rewrite WriteMessage_spec. destruct (Sync _); [discriminate|].
      intros [= <- _]. cbn. eexists. reflexivity.
Qed.

(** ** A file that ends inside a record header *)

Lemma nextRecord_partial_header rt f :
  (0 < length (pending f) < recordHeaderLength)%nat ->
  nextRecord rt f =
    (set_offset (offset f + length (pending f)) f, Err io_ErrUnexpectedEOF).
Proof.
  intros H. unfold nextRecord. cbn [nextRecord_loop]. unfold read_Header, ReadFull.
  destruct (decide _) as [E|_]; [lia|].
  destruct (decide _) as [_|N]; [|lia]. reflexivity.
Qed.

Lemma mbox_loop_log_rest es : forall db wr n k rest,
  Forall entry_ok es ->
  pending (fd db) = log_bytes es ++ rest ->
  mbox_loop (length (messages_of es) + k) db wr n =
    mbox_loop k (set_fd (Seek_cur (length (log_bytes es)) (fd db)) db)
      (wr ++ flat_map (mbox_entry db) (messages_of es))
      (n + Z.of_nat (length (messages_of es))).
Proof.
  induction es as [|e es IH]; intros db wr n k rest Hok Hp.
  - cbn. unfold Seek_cur. rewrite Nat.add_0_r, set_offset_same, set_fd_same, app_nil_r, Z.add_0_r.
    reflexivity.
  - apply Forall_cons in Hok as [He Hes].
    cbn [log_bytes flat_map] in *. fold (log_bytes es) in *.
    rewrite <- app_assoc in Hp.
    pose proof (nextRecord_message_entry _ _ _ He Hp) as Hn. cbn zeta in Hn.
    set (f' := Seek_cur (length (entry_bytes e)) (fd db)) in *.
    assert (Hp' : pending f' = log_bytes es ++ rest).
    { unfold f'. rewrite pending_Seek_cur, Hp. apply drop_app_length. }
    rewrite length_app, <- Seek_cur_Seek_cur. fold f'.
    assert (Hset : set_fd (Seek_cur (length (log_bytes es)) f') db =
                   set_fd (Seek_cur (length (log_bytes es)) (fd (set_fd f' db)))
                     (set_fd f' db)).
    { cbn [fd set_fd]. rewrite set_fd_set_fd. reflexivity. }
    destruct e as [ft m|ft l|t ft data]; cbn [messages_of flat_map app] in *;
      fold (messages_of es) in *.
    + cbn [length Nat.add mbox_loop].
      rewrite ReadMessage_cases, Hn.
      rewrite (IH (set_fd f' db) _ _ k rest Hes Hp'), <- Hset.
      rewrite <- app_assoc. f_equal. lia.
    + rewrite (mbox_loop_skip _ db f' wr n Hn).
      rewrite (IH (set_fd f' db) _ _ k rest Hes Hp'), <- Hset. reflexivity.
    + rewrite (mbox_loop_skip _ db f' wr n Hn).
      rewrite (IH (set_fd f' db) _ _ k rest Hes Hp'), <- Hset. reflexivity.
Qed.

(** X21. [mbox] takes every error of [ReadMessage] other than [io.EOF]
    for a record: when the file ends inside a record header (1 to 7 bytes
    after the last whole record) [ReadMessage] returns
    [io.ErrUnexpectedEOF] with no record, and [mbox] panics on the nil
    record instead of stopping. *)
Theorem mbox_partial_header_panics es db tail :
  Forall entry_ok es ->
  pending (fd db) = log_bytes es ++ tail ->
  (0 < length tail < recordHeaderLength)%nat ->
  mbox db = Panic PanicNilDeref.
Proof.
  intros Hes Hp Htail. unfold mbox.
  pose proof (length_messages_of es) as Hm.
  pose proof (length_pending (fd db)) as Hq. rewrite Hp, length_app in Hq.
  replace (S (length (contents (fd db))))
    with (length (messages_of es) + S (length (contents (fd db)) - length (messages_of es)))%nat
    by lia.
  rewrite (mbox_loop_log_rest es db [] 0 _ tail Hes Hp).
  cbn [mbox_loop]. rewrite ReadMessage_cases. cbn [fd set_fd].
  rewrite nextRecord_partial_header.
  - destruct (decide _) as [E|_]; [discriminate|reflexivity].
  - rewrite pending_Seek_cur, Hp, drop_app_length. exact Htail.
Qed.

End Properties.

(** * The properties on the sample archives *)

Section Witnesses.

Import Example.
#[local] Existing Instance Sample.env.

Ltac run := vm_compute; repeat split; try reflexivity; try discriminate.

(** The stand-in on known values: the SHA-1 of "abc" and the CRC-32 of
    "123456789". *)
Example Sample_sha1_abc :
  Sample.sha1_Sum (B "abc") =
    [Byte.xa9; Byte.x99; Byte.x3e; Byte.x36; Byte.x47; Byte.x06; Byte.x81;
     Byte.x6a; Byte.xba; Byte.x3e; Byte.x25; Byte.x71; Byte.x78; Byte.x50;
     Byte.xc2; Byte.x6c; Byte.x9c; Byte.xd0; Byte.xd8; Byte.x9d].
Proof. vm_compute; reflexivity. Qed.

Example Sample_crc32_check : Sample.crc32 (B "123456789") = 0xCBF43926.
Proof. vm_compute; reflexivity. Qed.

Lemma header_ok_file_header : header_ok file_header.
Proof. split; vm_compute; reflexivity. Qed.

Lemma entry_ok_msg7 : entry_ok (EMessage HC msg7).
Proof. run. Qed.

Lemma entry_ok_msg1 : entry_ok (EMessage HC msg1).
Proof. run. Qed.

Lemma codec_roundtrip_witness :
  length (sha1_Sum (asn1_Marshal_Message msg7)) = 20%nat /\
  gzip_ReadAll (gzip_Write (asn1_Marshal_Message msg7)) = Some (asn1_Marshal_Message msg7) /\
  decode HC (encode HC (asn1_Marshal_Message msg7)) = Ok (asn1_Marshal_Message msg7).
Proof.
  split; [vm_compute; reflexivity|]. split; [vm_compute; reflexivity|].
  apply (codec_roundtrip HC (asn1_Marshal_Message msg7)); vm_compute; reflexivity.
Defined.

(** C2, the claim on the code: on a new archive, [WriteMessage] of message
    7 returns no error, and [HaveUID] of 7 is still false. *)
Lemma WriteMessage_not_indexed :
  Open 1351123200 false [] = Ok db_empty /\
  (WriteMessage 7 (B "Subject: hello") db_empty).2 = None /\
  HaveUID (WriteMessage 7 (B "Subject: hello") db_empty).1 7 = false.
Proof. split; [|split]; vm_compute; reflexivity. Qed.

Lemma WriteMessage_indexed_on_reopen_witness :
  header_ok file_header /\
  contents (fd db_empty) = file_header ++ log_bytes [] /\
  entry_ok (EMessage (Z.lor FeatureCompressed FeatureHashed) msg7) /\
  WriteMessage 7 (B "Subject: hello") db_empty
    = ((WriteMessage 7 (B "Subject: hello") db_empty).1, None) /\
  (forall i, HaveUID (WriteMessage 7 (B "Subject: hello") db_empty).1 i
             = HaveUID db_empty i) /\
  exists db2,
    Open 0 false (contents (fd (WriteMessage 7 (B "Subject: hello") db_empty).1)) = Ok db2 /\
    HaveUID db2 7 = true.
Proof.
  split; [exact header_ok_file_header|].
  split; [vm_compute; reflexivity|]. split; [exact entry_ok_msg7|].
  split; [vm_compute; reflexivity|].
  apply (WriteMessage_indexed_on_reopen 0 false file_header [] db_empty 7
           (B "Subject: hello")).
  - exact header_ok_file_header.
  - constructor.
  - vm_compute; reflexivity.
  - exact entry_ok_msg7.
  - vm_compute; reflexivity.
Defined.

(** C3, the claim on the code: on the archive that holds message 7,
    [HaveUID] of 7 is true, a [WriteMessage] of 7 returns no error, the file
    then holds two Message records for 7, and [mbox] on the reopened
    archive writes message 7 twice. *)
Lemma WriteMessage_duplicate_accepted :
  Open 0 false archive7 = Ok db7 /\
  HaveUID db7 7 = true /\
  (WriteMessage 7 (B "Subject: hello") db7).2 = None /\
  contents (fd (WriteMessage 7 (B "Subject: hello") db7).1)
    = file_header ++ log_bytes [EMessage HC msg7; EMessage HC msg7] /\
  exists db2 db3,
    Open 0 false (contents (fd (WriteMessage 7 (B "Subject: hello") db7).1)) = Ok db2 /\
    mbox db2 = Ok (db3, mbox_entry db2 msg7 ++ mbox_entry db2 msg7, 2).
Proof.
  split; [vm_compute; reflexivity|]. split; [vm_compute; reflexivity|].
  split; [vm_compute; reflexivity|]. split; [vm_compute; reflexivity|].
  do 2 eexists. split; [vm_compute; reflexivity|vm_compute; reflexivity].
Qed.

Lemma WriteMessage_known_id_appends_witness :
  HaveUID db7 7 = true /\
  sync_fails (fd db7) = false /\
  exists db',
    WriteMessage 7 (B "Subject: hello") db7 = (db', None) /\
    contents (fd db') =
      contents (fd db7) ++
      entry_bytes (EMessage (Z.lor FeatureCompressed FeatureHashed)
                     (MessageRecord.mk 7 (B "Subject: hello"))) /\
    haveMsgID db' = haveMsgID db7 /\ labels db' = labels db7 /\
    labelsChanged db' = labelsChanged db7.
Proof.
  split; [vm_compute; reflexivity|]. split; [vm_compute; reflexivity|].
  apply (WriteMessage_known_id_appends db7 7 (B "Subject: hello")); vm_compute; reflexivity.
Defined.

(** C4, the claim on the code: in the stored payload of message 7, the byte
    at index 29 is the operating-system byte of the gzip header; with that
    byte changed from 255 to 3 the payload decodes to the same message, and
    [Open] takes the archive that holds the altered record. *)
Lemma altered_payload_accepted :
  stored7 !! 29%nat = Some Byte.xff /\
  flip_byte 29 Byte.x03 stored7 !! 29%nat = Some Byte.x03 /\
  decode HC (flip_byte 29 Byte.x03 stored7) = Ok (asn1_Marshal_Message msg7) /\
  exists db,
    Open 0 false
      (file_header ++ put_Header (Header.mk MessageRecordType HC 64) ++
       flip_byte 29 Byte.x03 stored7) = Ok db /\
    HaveUID db 7 = true.
Proof.
  split; [vm_compute; reflexivity|]. split; [vm_compute; reflexivity|].
  split; [vm_compute; reflexivity|].
  eexists. split; [vm_compute; reflexivity|vm_compute; reflexivity].
Qed.

Lemma hashed_record_checked_witness :
  has_feature HC FeatureHashed = true /\
  ((exists d, decode HC stored7 = Ok d /\ hash d = take 20 stored7) \/
   (exists p, decode HC stored7 = Panic p)) /\
  decode HC (flip_byte 0 Byte.x00 stored7) = Panic PanicHashFailure.
Proof.
  assert (Hh : has_feature HC FeatureHashed = true) by (vm_compute; reflexivity).
  split; [exact Hh|].
  destruct (hashed_record_checked HC Hh) as [Hsound Hprefix].
  split; [apply Hsound|].
  apply (Hprefix (asn1_Marshal_Message msg7) 0%nat Byte.x00).
  - vm_compute; reflexivity.
  - vm_compute; reflexivity.
  - vm_compute; lia.
  - vm_compute; discriminate.
Defined.

(** C5, the claim on the code: the archive whose last record, a Message
    record of 64 bytes, stops after 30 bytes of payload, and the archive
    that ends with 3 bytes of a hashed record of 10: the header of the last
    record announces more than is left, and [Open] panics. *)
Lemma Open_truncated_payload_panics :
  Header.Length (get_Header (take 8 (drop 40 archive7_cut))) = 64 /\
  length (drop 48 archive7_cut) = 30%nat /\
  Open 0 false archive7_cut = Panic PanicGzip /\
  Header.Length (get_Header (take 8 (drop 40 archive_short))) = 10 /\
  length (drop 48 archive_short) = 3%nat /\
  Open 0 false archive_short = Panic PanicSliceBounds.
Proof.
  split; [vm_compute; reflexivity|]. split; [vm_compute; reflexivity|].
  split; [vm_compute; reflexivity|]. split; [vm_compute; reflexivity|].
  split; vm_compute; reflexivity.
Qed.

Lemma Open_header_without_payload_witness :
  header_ok file_header /\
  Forall entry_ok [EMessage HC msg7] /\
  length header64 = recordHeaderLength /\
  0 < Header.Length (get_Header header64) /\
  exists db db',
    Open 0 false (file_header ++ log_bytes [EMessage HC msg7] ++ header64) = Ok db' /\
    Open 0 false (file_header ++ log_bytes [EMessage HC msg7]) = Ok db /\
    labels db' = labels db /\ haveMsgID db' = haveMsgID db /\
    labelsChanged db' = labelsChanged db.
Proof.
  assert (Hes : Forall entry_ok [EMessage HC msg7])
    by (constructor; [exact entry_ok_msg7|constructor]).
  assert (Hlen : length header64 = recordHeaderLength) by (vm_compute; reflexivity).
  assert (Hpos : 0 < Header.Length (get_Header header64)) by (vm_compute; reflexivity).
  split; [exact header_ok_file_header|]. split; [exact Hes|].
  split; [exact Hlen|]. split; [exact Hpos|].
  exact (Open_header_without_payload 0 false file_header [EMessage HC msg7] header64
           header_ok_file_header Hes Hlen Hpos).
Defined.

Lemma entry_ok_L1 : entry_ok (ELabels FeatureCompressed L1).
Proof. run. Qed.

Lemma entry_ok_L2 : entry_ok (ELabels FeatureCompressed L2).
Proof. run. Qed.

Lemma labels_last_writer_wins_witness :
  header_ok file_header /\
  Forall entry_ok ([ELabels FeatureCompressed L1] ++ ELabels FeatureCompressed L2 :: []) /\
  record_labels L2 1 = Some [B "b"; B "c"] /\
  Forall (fun e => ~ mentions 1 e) [] /\
  exists db,
    Open 0 false archive_labels = Ok db /\
    Labels db 1 = ["b"; "c"]%string.
Proof.
  assert (Hes : Forall entry_ok
                  ([ELabels FeatureCompressed L1] ++ ELabels FeatureCompressed L2 :: []))
    by (constructor; [exact entry_ok_L1|constructor; [exact entry_ok_L2|constructor]]).
  assert (Hl : record_labels L2 1 = Some [B "b"; B "c"]) by (vm_compute; reflexivity).
  split; [exact header_ok_file_header|]. split; [exact Hes|]. split; [exact Hl|].
  split; [constructor|].
  exact (labels_last_writer_wins 0 false file_header [ELabels FeatureCompressed L1]
           FeatureCompressed L2 [] 1 [B "b"; B "c"] header_ok_file_header Hes Hl
           (List.Forall_nil _)).
Defined.

Lemma fetchAndStore_never_done_witness :
  queue (msgids world_drained) = [] /\
  closed (msgids world_drained) = true /\
  fetchAndStore 1000 world_drained = Running world_drained /\
  (forall w0 w' c, select_stmt recv_case w0 = Completes w' c ->
     c = Normal /\ wg w' = wg w0) /\
  (forall fuel' w0 w' c, fetchAndStore fuel' w0 <> Completes w' c).
Proof.
  split; [reflexivity|]. split; [reflexivity|].
  exact (fetchAndStore_never_done 1000 world_drained eq_refl eq_refl).
Defined.

Lemma entry_ok_delete1 : entry_ok delete1.
Proof. run. Qed.

Lemma delete_record_ignored_witness :
  header_ok file_header /\
  Forall entry_ok ([EMessage HC msg1] ++ delete1 :: []) /\
  exists db db0 dbe dbe0 wr n,
    Open 0 false archive_deleted = Ok db /\
    Open 0 false (file_header ++ log_bytes ([EMessage HC msg1] ++ [])) = Ok db0 /\
    haveMsgID db = haveMsgID db0 /\ labels db = labels db0 /\
    mbox db = Ok (dbe, wr, n) /\ mbox db0 = Ok (dbe0, wr, n) /\
    wr = flat_map (mbox_entry db0) (messages_of ([EMessage HC msg1] ++ [])) /\
    n = Z.of_nat (length (messages_of ([EMessage HC msg1] ++ []))).
Proof.
  assert (Hes : Forall entry_ok ([EMessage HC msg1] ++ delete1 :: []))
    by (constructor; [exact entry_ok_msg1|constructor; [exact entry_ok_delete1|constructor]]).
  split; [exact header_ok_file_header|]. split; [exact Hes|].
  exact (delete_record_ignored 0 false file_header [EMessage HC msg1] 0
           [Byte.x30; Byte.x03; Byte.x02; Byte.x01; Byte.x01] []
           header_ok_file_header Hes).
Defined.

(** C9 on the sample archive: after message 1 and a Delete record that
    lists it, [Open] knows one message, message 1, and [mbox] writes it. *)
Lemma deleted_message_exported :
  exists db dbe,
    Open 0 false archive_deleted = Ok db /\
    HaveUID db 1 = true /\ Size db = 1%nat /\
    mbox db =
      Ok (dbe,
          B "From MAILER-DAEMON Thu Jan  1 01:00:00 1970" ++ [Byte.x0a] ++
          B "X-Gmail-MsgID: 1" ++ [Byte.x0a] ++
          B "Subject: one" ++ [Byte.x0a; Byte.x0a],
          1).
Proof.
  do 2 eexists. split; [vm_compute; reflexivity|].
  split; [vm_compute; reflexivity|]. split; [vm_compute; reflexivity|].
  vm_compute; reflexivity.
Qed.

Lemma Sample_range_keys_visits (m : gmap Z bool) :
  NoDup (range_keys m) /\ forall k, k ∈ range_keys m <-> is_Some (m !! k).
Proof.
  split; [apply NoDup_fst_map_to_list|].
  intros k. unfold range_keys; cbn. unfold Sample.range_keys.
  rewrite list_elem_of_fmap. split.
  - intros ([k' v]&->&H). apply elem_of_map_to_list in H. eauto.
  - intros [v H]. exists (k, v). split; [reflexivity|]. apply elem_of_map_to_list, H.
Qed.

Lemma WriteLabels_flushes_dirty_witness :
  NoDup (range_keys (labelsChanged db_dirty)) /\
  (forall k, k ∈ range_keys (labelsChanged db_dirty)
             <-> is_Some (labelsChanged db_dirty !! k)) /\
  exists lbls : LabelsRecord,
    contents (fd (WriteLabels db_dirty).1) =
      contents (fd db_dirty) ++ entry_bytes (ELabels FeatureCompressed lbls) /\
    NoDup (map LabelsEntry.MessageID lbls) /\
    (forall e, e ∈ lbls <->
       is_Some (labelsChanged db_dirty !! LabelsEntry.MessageID e) /\
       LabelsEntry.Labels e
         = stringSliceToBytes (Labels db_dirty (LabelsEntry.MessageID e))) /\
    labelsChanged (WriteLabels db_dirty).1 = ∅ /\
    labels (WriteLabels db_dirty).1 = labels db_dirty /\
    haveMsgID (WriteLabels db_dirty).1 = haveMsgID db_dirty /\
    (labelsChanged db_dirty = ∅ -> lbls = []).
Proof.
  destruct (Sample_range_keys_visits (labelsChanged db_dirty)) as [Hnd Hin].
  split; [exact Hnd|]. split; [exact Hin|].
  exact (WriteLabels_flushes_dirty db_dirty Hnd Hin).
Defined.


(** ** The further properties on the samples *)

Lemma Forall_entry_ok_msg7 : Forall entry_ok [EMessage HC msg7].
Proof. constructor; [exact entry_ok_msg7|constructor]. Qed.

Lemma Open_rejects_other_files_witness :
  foreign_file <> [] /\
  le_combine (take 4 foreign_file) <> fileMagic /\
  Open 0 false foreign_file = Err ErrIncorrectFormat.
Proof.
  assert (Hne : foreign_file <> []) by (vm_compute; discriminate).
  assert (Hm : le_combine (take 4 foreign_file) <> fileMagic) by (vm_compute; discriminate).
  split; [exact Hne|]. split; [exact Hm|].
  exact (Open_rejects_other_files 0 false foreign_file Hne (or_intror Hm)).
Defined.

Lemma Open_partial_record_header_witness :
  header_ok file_header /\ Forall entry_ok [EMessage HC msg7] /\
  (0 < length torn_header < recordHeaderLength)%nat /\
  Open 0 false (file_header ++ log_bytes [EMessage HC msg7] ++ torn_header)
    = Err io_ErrUnexpectedEOF.
Proof.
  assert (Ht : (0 < length torn_header < recordHeaderLength)%nat) by (vm_compute; lia).
  split; [exact header_ok_file_header|]. split; [exact Forall_entry_ok_msg7|].
  split; [exact Ht|].
  exact (Open_partial_record_header 0 false file_header [EMessage HC msg7] torn_header
           header_ok_file_header Forall_entry_ok_msg7 Ht).
Defined.

Lemma Open_known_ids_witness :
  header_ok file_header /\ Forall entry_ok [EMessage HC msg7] /\
  exists db,
    Open 0 false (file_header ++ log_bytes [EMessage HC msg7]) = Ok db /\
    (forall i, HaveUID db i = true <-> i ∈ message_ids [EMessage HC msg7]) /\
    Size db = size (list_to_set (message_ids [EMessage HC msg7]) : gset Z) /\
    labelsChanged db = ∅ /\
    fd db = mkFile (file_header ++ log_bytes [EMessage HC msg7]) fileHeaderLength false.
Proof.
  split; [exact header_ok_file_header|]. split; [exact Forall_entry_ok_msg7|].
  exact (Open_known_ids 0 false file_header [EMessage HC msg7]
           header_ok_file_header Forall_entry_ok_msg7).
Defined.

Lemma Open_labels_default_witness :
  header_ok file_header /\ Forall entry_ok [EMessage HC msg7] /\
  Forall (fun e => ~ mentions 7 e) [EMessage HC msg7] /\
  exists db,
    Open 0 false (file_header ++ log_bytes [EMessage HC msg7]) = Ok db /\
    Labels db 7 = [].
Proof.
  assert (Hun : Forall (fun e => ~ mentions 7 e) [EMessage HC msg7])
    by (constructor; [intros []|constructor]).
  split; [exact header_ok_file_header|]. split; [exact Forall_entry_ok_msg7|].
  split; [exact Hun|].
  exact (Open_labels_default 0 false file_header [EMessage HC msg7] 7
           header_ok_file_header Forall_entry_ok_msg7 Hun).
Defined.

Lemma ReadMessage_passes_over_witness :
  pending (fd db_torn_labels) =
    put_Header (Header.mk 2 1 100) ++ [Byte.x01; Byte.x02; Byte.x03] /\
  ReadMessage db_torn_labels =
    ReadMessage
      (set_fd (Seek_cur (recordHeaderLength + Z.to_nat 100) (fd db_torn_labels))
         db_torn_labels).
Proof.
  assert (Hp : pending (fd db_torn_labels) =
               put_Header (Header.mk 2 1 100) ++ [Byte.x01; Byte.x02; Byte.x03])
    by (vm_compute; reflexivity).
  split; [exact Hp|].
  apply (ReadMessage_passes_over db_torn_labels 2 1 100 [Byte.x01; Byte.x02; Byte.x03]).
  - lia.
  - lia.
  - lia.
  - vm_compute; discriminate.
  - exact Hp.
Defined.

Lemma WriteMessage_read_back_witness :
  entry_ok (EMessage (Z.lor FeatureCompressed FeatureHashed)
              (MessageRecord.mk 7 (B "Subject: hello"))) /\
  ReadMessage
    (set_fd (Seek_set (length (contents (fd db_empty)))
               (fd (WriteMessage 7 (B "Subject: hello") db_empty).1))
       (WriteMessage 7 (B "Subject: hello") db_empty).1) =
    ((WriteMessage 7 (B "Subject: hello") db_empty).1,
     Ok (MessageRecord.mk 7 (B "Subject: hello"))).
Proof.
  split; [exact entry_ok_msg7|].
  exact (WriteMessage_read_back 7 (B "Subject: hello") db_empty entry_ok_msg7).
Defined.

Lemma Open_archive7 : Open 0 false (file_header ++ log_bytes [EMessage HC msg7]) = Ok db7.
Proof. vm_compute; reflexivity. Qed.

Lemma mbox_does_not_rewind_witness :
  header_ok file_header /\ Forall entry_ok [EMessage HC msg7] /\
  Open 0 false (file_header ++ log_bytes [EMessage HC msg7]) = Ok db7 /\
  exists db1,
    mbox db7 = Ok (db1, flat_map (mbox_entry db7) (messages_of [EMessage HC msg7]),
                   Z.of_nat (length (messages_of [EMessage HC msg7]))) /\
    mbox db1 = Ok (db1, [], 0) /\
    mbox (Rewind db1) = mbox db7.
Proof.
  split; [exact header_ok_file_header|]. split; [exact Forall_entry_ok_msg7|].
  split; [exact Open_archive7|].
  exact (mbox_does_not_rewind 0 false file_header [EMessage HC msg7] db7
           header_ok_file_header Forall_entry_ok_msg7 Open_archive7).
Defined.

Lemma written_message_exported_witness :
  header_ok file_header /\ Forall entry_ok [EMessage HC msg7] /\
  entry_ok (EMessage (Z.lor FeatureCompressed FeatureHashed)
              (MessageRecord.mk 1 (B "Subject: one"))) /\
  Open 0 false (file_header ++ log_bytes [EMessage HC msg7]) = Ok db7 /\
  exists db1,
    mbox (Rewind (WriteMessage 1 (B "Subject: one") db7).1) =
      Ok (db1,
          flat_map (mbox_entry db7) (messages_of [EMessage HC msg7]) ++
            mbox_entry db7 (MessageRecord.mk 1 (B "Subject: one")),
          Z.of_nat (length (messages_of [EMessage HC msg7])) + 1).
Proof.
  split; [exact header_ok_file_header|]. split; [exact Forall_entry_ok_msg7|].
  split; [exact entry_ok_msg1|]. split; [exact Open_archive7|].
  exact (written_message_exported 0 false file_header [EMessage HC msg7] db7 1
           (B "Subject: one") header_ok_file_header Forall_entry_ok_msg7
           entry_ok_msg1 Open_archive7).
Defined.

Lemma entry_ok_flushed :
  entry_ok (ELabels FeatureCompressed
              (flushed_labels (SetLabels 1 ["a"]%string db_empty))).
Proof. run. Qed.

Lemma SetLabels_persists_witness :
  header_ok file_header /\
  contents (fd db_empty) = file_header ++ log_bytes [] /\
  entry_ok (ELabels FeatureCompressed
              (flushed_labels (SetLabels 1 ["a"]%string db_empty))) /\
  Labels (SetLabels 1 ["a"]%string db_empty) 1 = ["a"]%string /\
  exists db2,
    Open 0 false (contents (fd (WriteLabels (SetLabels 1 ["a"]%string db_empty)).1))
      = Ok db2 /\
    Labels db2 1 = ["a"]%string /\
    (forall k, is_Some (labelsChanged db_empty !! k) ->
       Labels db2 k = Labels (SetLabels 1 ["a"]%string db_empty) k).
Proof.
  assert (Hc : contents (fd db_empty) = file_header ++ log_bytes [])
    by (vm_compute; reflexivity).
  split; [exact header_ok_file_header|]. split; [exact Hc|].
  split; [exact entry_ok_flushed|].
  exact (SetLabels_persists 0 false file_header [] db_empty 1 ["a"]%string
           header_ok_file_header (List.Forall_nil _) Hc entry_ok_flushed
           (fun k => proj2 (Sample_range_keys_visits _) k)).
Defined.

Lemma scan_round_listing :
  scan_round listing scan_start7 = Ok (scan_next7.1, scan_next7.2).
Proof. vm_compute; reflexivity. Qed.

Lemma scan_round_queues_unknown_witness :
  scan_round listing scan_start7 = Ok (scan_next7.1, scan_next7.2) /\
  queue (out scan_next7.1) = queue (out scan_start7) ++ unknown_of (scan_db scan_start7) listing /\
  scan_next7.2 = Z.of_nat (length (unknown_of (scan_db scan_start7) listing)) /\
  haveMsgID (scan_db scan_next7.1) = haveMsgID (scan_db scan_start7) /\
  begin scan_next7.1 = uint32 (begin scan_start7 + step scan_start7) /\
  scanned (progress scan_next7.1) =
    scanned (progress scan_start7) + Z.of_nat (length listing).
Proof.
  split; [exact scan_round_listing|].
  exact (scan_round_queues_unknown listing scan_start7 scan_next7.1 scan_next7.2
           scan_round_listing).
Defined.

Lemma scan_round_labels_witness :
  scan_round listing scan_start7 = Ok (scan_next7.1, scan_next7.2) /\
  labelsChanged (scan_db scan_next7.1) = ∅ /\
  (forall ms1 m ms2, listing = ms1 ++ m :: ms2 ->
     Forall (fun m' => imap.MsgID_ m' <> imap.MsgID_ m) ms2 ->
     Labels (scan_db scan_next7.1) (imap.MsgID_ m) = imap.Labels m) /\
  (forall i, Forall (fun m => imap.MsgID_ m <> i) listing ->
     Labels (scan_db scan_next7.1) i = Labels (scan_db scan_start7) i) /\
  (Forall (fun m => imap.Labels m = Labels (scan_db scan_start7) (imap.MsgID_ m)) listing ->
     labels (scan_db scan_next7.1) = labels (scan_db scan_start7) /\
     progress_labels (progress scan_next7.1) = progress_labels (progress scan_start7)).
Proof.
  split; [exact scan_round_listing|].
  exact (scan_round_labels listing scan_start7 scan_next7.1 scan_next7.2
           scan_round_listing).
Defined.

Lemma scan_loop_ends_witness :
  (forall n b e, search_nothing n b e <> OutOfFuel) /\
  150 <= 2 ^ 32 - 3200 /\ 150 - 1 <= 100 * Z.of_nat 2 /\
  scan_loop search_nothing 3 0 150 (scan_init 150 db7 (mkProgress 0 0 0 0)) <> OutOfFuel /\
  (forall s', scan_loop search_nothing 3 0 150 (scan_init 150 db7 (mkProgress 0 0 0 0)) = Ok s' ->
     closed (out s') = true) /\
  (150 <= 1 ->
   exists s', scan_loop search_nothing 3 0 150 (scan_init 150 db7 (mkProgress 0 0 0 0)) = Ok s' /\
     queue (out s') = [] /\ scan_db s' = db7).
Proof.
  assert (H1 : forall n b e, search_nothing n b e <> OutOfFuel) by (intros; discriminate).
  assert (H2 : 150 <= 2 ^ 32 - 3200) by lia.
  assert (H3 : 150 - 1 <= 100 * Z.of_nat 2) by lia.
  split; [exact H1|]. split; [exact H2|]. split; [exact H3|].
  exact (scan_loop_ends search_nothing 150 db7 (mkProgress 0 0 0 0) 2 H1 H2 H3).
Defined.

Lemma worker_stores_queue_witness :
  closed (msgids world_queued) = false /\
  sync_fails (fd (w_db world_queued)) = false /\
  Forall2 (fun m body => GetMail (UID m) = Ok body)
    [mkMsgID 10 7; mkMsgID 11 8] [B "Subject: hello"; B "Subject: hello"] /\
  exists w',
    fetchAndStore 3 world_queued = Blocked w' /\
    contents (fd (w_db w')) =
      contents (fd (w_db world_queued)) ++
      log_bytes (zip_with (fun m body =>
                             EMessage (Z.lor FeatureCompressed FeatureHashed)
                               (MessageRecord.mk (MsgID_ m) body))
                   [mkMsgID 10 7; mkMsgID 11 8]
                   [B "Subject: hello"; B "Subject: hello"]) /\
    fetched (w_progress w') =
      fetched (w_progress world_queued) + Z.of_nat (length [mkMsgID 10 7; mkMsgID 11 8]) /\
    queue (msgids w') = [] /\
    haveMsgID (w_db w') = haveMsgID (w_db world_queued) /\
    wg w' = wg world_queued.
Proof.
  assert (Hb : Forall2 (fun m body => GetMail (UID m) = Ok body)
                 [mkMsgID 10 7; mkMsgID 11 8] [B "Subject: hello"; B "Subject: hello"]).
  { constructor; [vm_compute; reflexivity|].
    constructor; [vm_compute; reflexivity|constructor]. }
  split; [reflexivity|]. split; [reflexivity|]. split; [exact Hb|].
  apply (worker_stores_queue [mkMsgID 10 7; mkMsgID 11 8] world_queued
           [B "Subject: hello"; B "Subject: hello"] 3).
  - reflexivity.
  - reflexivity.
  - reflexivity.
  - exact Hb.
  - cbn [length]. lia.
Defined.

Lemma mbox_partial_header_panics_witness :
  Forall entry_ok [EMessage HC msg7] /\
  pending (fd db_torn_header) = log_bytes [EMessage HC msg7] ++ torn_header /\
  (0 < length torn_header < recordHeaderLength)%nat /\
  mbox db_torn_header = Panic PanicNilDeref.
Proof.
  assert (Hp : pending (fd db_torn_header) = log_bytes [EMessage HC msg7] ++ torn_header)
    by (vm_compute; reflexivity).
  assert (Ht : (0 < length torn_header < recordHeaderLength)%nat) by (vm_compute; lia).
  split; [exact Forall_entry_ok_msg7|]. split; [exact Hp|]. split; [exact Ht|].
  exact (mbox_partial_header_panics [EMessage HC msg7] db_torn_header torn_header
           Forall_entry_ok_msg7 Hp Ht).
Defined.

End Witnesses.
